(** * Jobly: the partial-update helper, the list filters and the job model

    A shallow embedding of [helpers/sql.js] ([sqlForPartialUpdate]),
    of the WHERE-clause construction of [Company.findAll] and
    [Job.findAll], of [Job.create], and of the authentication
    middleware, with the properties the specification states about them. *)

From Stdlib Require Import ZArith Ascii String.
From stdpp Require Import base tactics option list strings gmap pretty.

Local Open Scope string_scope.

(** ** JavaScript values *)

Module JS.

(** The primitive values that reach the modelled code: request fields are
    JSON scalars or absent.  Numbers are the integers ([salary],
    [minEmployees], indexes); fractional numbers are not represented. *)
Inductive jsval : Type :=
  | JUndefined
  | JNull
  | JBool (b : bool)
  | JNum (n : Z)
  | JStr (s : string).

#[global] Instance jsval_eq_dec : EqDecision jsval.
Proof. solve_decision. Defined.

(** [ToBoolean]: what [if (v)] and [v || w] test. *)
Definition truthy (v : jsval) : bool :=
  match v with
  | JUndefined | JNull => false
  | JBool b => b
  | JNum n => negb (n =? 0)%Z
  | JStr s => negb (String.eqb s "")
  end.

(** [ToString]: what a template literal and [toString()] produce; a
    number is written with its decimal digits, as JavaScript does for
    the safe integers.  Beyond them JavaScript rounds the number and,
    from 10^21, writes an exponent; a statement that names the digits of
    a number is made for the safe integers only. *)
Definition toString (v : jsval) : string :=
  match v with
  | JUndefined => "undefined"
  | JNull => "null"
  | JBool true => "true"
  | JBool false => "false"
  | JNum n => pretty n
  | JStr s => s
  end.

(** [v !== undefined]. *)
Definition isDefined (v : jsval) : bool :=
  match v with JUndefined => false | _ => true end.

(** The double-quote character (code 34) and the one-character string
    holding it. *)
Definition dquote : ascii := ascii_of_nat 34.
Definition dq : string := String dquote "".

(** [Array.prototype.join] on an array of strings. *)
Fixpoint join (sep : string) (l : list string) : string :=
  match l with
  | [] => ""
  | [x] => x
  | x :: rest => x +:+ sep +:+ join sep rest
  end.

(** An object as its own enumerable string-keyed properties, listed in
    the order [Object.keys] and [Object.values] enumerate them. *)
Abbreviation object := (list (string * jsval)).

Definition keys (o : object) : list string := o.*1.
Definition values (o : object) : list jsval := o.*2.

End JS.

Import JS.

(** ** Errors of [expressError] *)

Inductive expressError : Type :=
  | BadRequestError (message : string)
  | UnauthorizedError (message : string)
  | NotFoundError (message : string).

(** The HTTP status each error class carries. *)
Definition status (e : expressError) : Z :=
  match e with
  | BadRequestError _ => 400
  | UnauthorizedError _ => 401
  | NotFoundError _ => 404
  end.

(** ** [helpers/sql.js] *)

Module Sql.

Record partialUpdate : Type := {
  setCols : string;
  values : list jsval
}.

(** The function members that every object literal inherits from
    [Object.prototype]. *)
Definition prototypeFunctions : list string :=
  ["constructor"; "__defineGetter__"; "__defineSetter__"; "hasOwnProperty";
   "__lookupGetter__"; "__lookupSetter__"; "isPrototypeOf";
   "propertyIsEnumerable"; "toString"; "valueOf"; "toLocaleString"].

(** What a template literal writes for the member of [Object.prototype]
    called [name], as Node prints it: the source text of a built-in
    function ([constructor] is the function [Object]), and
    [[object Object]] for the prototype object that [__proto__] reads.
    [None] when [Object.prototype] has no such member. *)
Definition inherited (name : string) : option string :=
  if String.eqb name "constructor" then
    Some "function Object() { [native code] }"
  else if String.eqb name "__proto__" then Some "[object Object]"
  else if bool_decide (name ∈ prototypeFunctions) then
    Some ("function " +:+ name +:+ "() { [native code] }")
  else None.

(** [jsToSql[colName] || colName].  The mapping is an object literal: a
    finite map of its own properties, whose values are column names,
    with [Object.prototype] behind it.  An own property is used unless
    it is the empty string, which is falsy; a name that is not an own
    property reads the inherited member, which is truthy, when there is
    one, and [undefined] otherwise; [colName] is what is left. *)
Definition column (jsToSql : gmap string string) (colName : string) : string :=
  match jsToSql !! colName with
  | Some c => if truthy (JStr c) then c else colName
  | None =>
      match inherited colName with
      | Some text => text
      | None => colName
      end
  end.

(** The arrow function of [keys.map]: ["<column>"=$<idx+1>]. *)
Definition assignment (jsToSql : gmap string string)
    (idx : nat) (colName : string) : string :=
  dq +:+ column jsToSql colName +:+ dq +:+ "=$" +:+ pretty (idx + 1)%nat.

Definition cols (dataToUpdate : object) (jsToSql : gmap string string)
    : list string :=
  imap (assignment jsToSql) (keys dataToUpdate).

Definition sqlForPartialUpdate (dataToUpdate : object)
    (jsToSql : gmap string string) : expressError + partialUpdate :=
  let keys := keys dataToUpdate in
  if (length keys =? 0)%nat then inl (BadRequestError "No data")
  else inr {| setCols := join ", " (cols dataToUpdate jsToSql);
              values := JS.values dataToUpdate |}.

End Sql.

(** ** The [pg-format] package *)

Module PgFormat.

(** Modelled from the spec: the character loop of the literal quoting of
    [pg-format] (an external package, not among the sources): a single
    quote and a backslash are written twice, and a backslash is
    remembered. *)
Fixpoint quoteLoop (literal quoted : string) (hasBackslash : bool)
    : string * bool :=
  match literal with
  | "" => (quoted, hasBackslash)
  | String c rest =>
      if Ascii.eqb c "'" then
        quoteLoop rest (quoted +:+ String c (String c "")) hasBackslash
      else if Ascii.eqb c "\" then
        quoteLoop rest (quoted +:+ String c (String c "")) true
      else
        quoteLoop rest (quoted +:+ String c "") hasBackslash
  end.

(** Modelled from the spec: the quotes around the escaped characters,
    and the [E] prefix when a backslash was seen. *)
Definition quoteString (literal : string) : string :=
  let '(quoted, hasBackslash) := quoteLoop literal "'" false in
  let quoted := quoted +:+ "'" in
  if hasBackslash then "E" +:+ quoted else quoted.

(** Modelled from the spec: [pg-format] is an external package, its
    source is not in the repository, and the specification only says
    that the value is escaped and quoted.  The model follows the
    package's [%L] directive on the values of [JS.jsval]: [undefined]
    and [null] give [NULL], booleans give ['t'] and ['f'], and anything
    else is converted with [toString()] and quoted by the loop above. *)
Definition quoteLiteral (value : jsval) : string :=
  match value with
  | JUndefined | JNull => "NULL"
  | JBool false => "'f'"
  | JBool true => "'t'"
  | _ => quoteString (toString value)
  end.

(** Modelled from the spec: [format(fmt, ...args)] of the same package,
    for the directives the models use: [%L] takes the next argument
    through [quoteLiteral], [%%] is a percent sign, and every other
    character is copied.  [None] stands for the exception raised when
    the arguments run out. *)
Fixpoint format (fmt : string) (args : list jsval) : option string :=
  match fmt with
  | "" => Some ""
  | String c rest =>
      if Ascii.eqb c "%" then
        match rest with
        | String d rest' =>
            if Ascii.eqb d "L" then
              match args with
              | a :: args' =>
                  String.append (quoteLiteral a) <$> format rest' args'
              | [] => None
              end
            else if Ascii.eqb d "%" then String d <$> format rest' args
            else String c <$> format rest args
        | "" => Some (String c "")
        end
      else String c <$> format rest args
  end.

End PgFormat.

(** ** Reading quoted tokens back

    How a SQL lexer reads what the builders emit.  These functions are
    not part of the program; the escaping properties are stated with
    them. *)

Module Lexer.

(** The body of a string constant, after its opening quote: the decoded
    content and the input left after the closing quote.  Two quotes in a
    row are one quote of the content.  With [esc] (an [E'...'] constant)
    a backslash escapes the backslash or quote after it; other escape
    sequences are not read. *)
Fixpoint stringBody (esc : bool) (s : string) : option (string * string) :=
  match s with
  | "" => None
  | String c rest =>
      if Ascii.eqb c "'" then
        match rest with
        | String d rest' =>
            if Ascii.eqb d "'" then
              prod_map (String c) id <$> stringBody esc rest'
            else Some ("", rest)
        | "" => Some ("", rest)
        end
      else if esc && Ascii.eqb c "\" then
        match rest with
        | String d rest' =>
            if Ascii.eqb d "\" || Ascii.eqb d "'" then
              prod_map (String d) id <$> stringBody esc rest'
            else None
        | "" => None
        end
      else prod_map (String c) id <$> stringBody esc rest
  end.

(** A string constant at the head of the input. *)
Definition stringConstant (s : string) : option (string * string) :=
  match s with
  | String c rest =>
      if Ascii.eqb c "'" then stringBody false rest
      else if Ascii.eqb c "E" then
        match rest with
        | String d body => if Ascii.eqb d "'" then stringBody true body else None
        | "" => None
        end
      else None
  | "" => None
  end.

(** The body of a quoted identifier, after its opening double quote: the
    name and the input left after the closing double quote.  Two double
    quotes in a row are one double quote of the name. *)
Fixpoint identBody (s : string) : option (string * string) :=
  match s with
  | "" => None
  | String c rest =>
      if Ascii.eqb c dquote then
        match rest with
        | String d rest' =>
            if Ascii.eqb d dquote then
              prod_map (String c) id <$> identBody rest'
            else Some ("", rest)
        | "" => Some ("", rest)
        end
      else prod_map (String c) id <$> identBody rest
  end.

(** A quoted identifier at the head of the input. *)
Definition quotedIdent (s : string) : option (string * string) :=
  match s with
  | String c rest => if Ascii.eqb c dquote then identBody rest else None
  | "" => None
  end.

End Lexer.

(** ** [models/company.js] and [models/job.js]: the list filters *)

(** [conditions.push(c)]. *)
Definition push (conditions : list string) (c : string) : list string :=
  conditions ++ [c].

(** The tail shared by both [findAll]: the clause is empty unless a
    condition was pushed. *)
Definition whereClause (conditions : list string) : string :=
  if (length conditions =? 0)%nat then ""
  else "WHERE " +:+ join " AND " conditions.

Module Company.

(** The filter keys [findAll] destructures; a key the caller left out
    reads [JUndefined]. *)
Record filters : Type := {
  nameLike : jsval;
  minEmployees : jsval;
  maxEmployees : jsval
}.

(** The [conditions] array of [findAll]; [None] when a [format] call
    raises.  [filters] is [None] when the argument is absent. *)
Definition conditions (filters : option filters) : option (list string) :=
  let conditions := [] in
  match filters with
  | None => Some conditions
  | Some f =>
      conditions ←
        (if truthy (nameLike f) then
           push conditions <$>
             PgFormat.format "name ILIKE %L"
               [JStr ("%" +:+ toString (nameLike f) +:+ "%")]
         else Some conditions);
      conditions ←
        (if truthy (minEmployees f) then
           push conditions <$>
             PgFormat.format "num_employees >= %L" [minEmployees f]
         else Some conditions);
      conditions ←
        (if truthy (maxEmployees f) then
           push conditions <$>
             PgFormat.format "num_employees <= %L" [maxEmployees f]
         else Some conditions);
      Some conditions
  end.

(** The [whereClause] that [findAll] splices into its query. *)
Definition findAll_whereClause (filters : option filters) : option string :=
  whereClause <$> conditions filters.

End Company.

Module Job.

Record filters : Type := {
  title : jsval;
  minSalary : jsval;
  hasEquity : jsval
}.

Definition conditions (filters : option filters) : option (list string) :=
  let conditions := [] in
  match filters with
  | None => Some conditions
  | Some f =>
      conditions ←
        (if truthy (title f) then
           push conditions <$>
             PgFormat.format "title ILIKE %L"
               [JStr ("%" +:+ toString (title f) +:+ "%")]
         else Some conditions);
      conditions ←
        (if truthy (minSalary f) then
           push conditions <$>
             PgFormat.format "salary >= %L" [minSalary f]
         else Some conditions);
      conditions ←
        (if isDefined (hasEquity f) && truthy (hasEquity f) then
           push conditions <$> PgFormat.format "equity >= 0" []
         else if isDefined (hasEquity f) && negb (truthy (hasEquity f)) then
           push conditions <$>
             PgFormat.format "(equity = 0 OR equity = NULL)" []
         else Some conditions);
      Some conditions
  end.

Definition findAll_whereClause (filters : option filters) : option string :=
  whereClause <$> conditions filters.

End Job.

(** ** The store and [Job.create] *)

Module Db.

(** A row of [companies], with the column aliases of the queries. *)
Record company : Type := {
  handle : string;
  name : string;
  numEmployees : jsval;
  description : string;
  logoUrl : jsval
}.

(** A row of [jobs]. *)
Record job : Type := {
  id : Z;
  title : jsval;
  salary : jsval;
  equity : jsval;
  company_handle : string
}.

(** The two tables the job model touches: [companies] keyed by its
    primary key [handle], [jobs] in insertion order with the next value
    of its [id] sequence. *)
Record t : Type := {
  companies : gmap string company;
  jobs : list job;
  jobs_id_seq : Z
}.

(** [SELECT ... FROM companies WHERE handle = $1]: the rows. *)
Definition selectCompany (db : t) (h : string) : list company :=
  match companies db !! h with
  | Some c => [c]
  | None => []
  end.

(** What a text or integer column holds for a parameter: [undefined]
    is sent as null, anything else is kept. *)
Definition stored (v : jsval) : jsval :=
  match v with
  | JUndefined => JNull
  | _ => v
  end.

(** What the numeric column [equity] holds, as the driver gives it
    back: a number comes back as the string of its digits
    (the tests expect ["0.75"] for [0.75]), null and [undefined] as
    null.  Strings and booleans written to the column are kept as they
    are, which stands for no behaviour of the store. *)
Definition numeric (v : jsval) : jsval :=
  match v with
  | JNum n => JStr (pretty n)
  | JUndefined => JNull
  | _ => v
  end.

(** [INSERT INTO jobs ... RETURNING id, title, salary, equity]: the new
    store and the one row the statement returns ([rows[0]]), with the
    columns as the store holds them.  Column constraints of the table
    are not represented. *)
Definition insertJob (db : t) (title salary equity : jsval) (h : string)
    : t * job :=
  let row := {| id := jobs_id_seq db; title := stored title;
                salary := stored salary; equity := numeric equity;
                company_handle := h |} in
  ({| companies := companies db;
      jobs := jobs db ++ [row];
      jobs_id_seq := (jobs_id_seq db + 1)%Z |}, row).

End Db.

Module JobModel.

(** The argument of [Job.create]. *)
Record newJob : Type := {
  title : jsval;
  salary : jsval;
  equity : jsval;
  companyHandle : string
}.

(** What [Job.create] returns: the inserted row with its company
    attached. *)
Record created : Type := {
  job : Db.job;
  company : Db.company
}.

(** [Job.create]: the outcome and the store it leaves. *)
Definition create (data : newJob) (db : Db.t)
    : (expressError + created) * Db.t :=
  let getCompanyResult := Db.selectCompany db (companyHandle data) in
  match head getCompanyResult with
  | None =>
      (inl (BadRequestError
              ("Company handle not found: " +:+ companyHandle data)), db)
  | Some company =>
      let '(db', job) :=
        Db.insertJob db (title data) (salary data) (equity data)
          (companyHandle data) in
      (inr {| job := job; company := company |}, db')
  end.

End JobModel.

(** ** [middleware/auth.js] *)

Module Auth.

(** The claims of a verified token, as [res.locals.user] holds them. *)
Record user : Type := {
  username : string;
  isAdmin : bool;
  iat : Z
}.

#[global] Instance user_eq_dec : EqDecision user.
Proof. solve_decision. Defined.

(** [res.locals]: empty, or holding [user]. *)
Record locals : Type := { locals_user : option user }.

Definition emptyLocals : locals := {| locals_user := None |}.

(** What the middleware reads of a request: the bearer credential of the
    [authorization] header and the [username] route parameter. *)
Record request : Type := {
  bearer : option string;
  params_username : string
}.

(** How a middleware ends: it calls [next], with or without an error. *)
Inductive outcome : Type :=
  | Next
  | NextErr (err : expressError).

Section Middleware.

(** Token verification of the [jsonwebtoken] package against a secret:
    the decoded claims, or [None] when it throws (malformed token, wrong
    signature, expired). *)
Variable verify : string -> string -> option user.
Variable SECRET_KEY : string.

(** Modelled from the spec: [middleware/auth.js] is not among the
    sources, only its tests are.  Section 4.3: without a bearer
    credential the context is left as it is; with one, the credential is
    verified with the shared secret, on success the context holds the
    decoded claims, on failure the credential is ignored; the operation
    always proceeds to the next stage. *)
Definition authenticateJWT (req : request) (res : locals)
    : outcome * locals :=
  match bearer req with
  | None => (Next, res)
  | Some token =>
      match verify token SECRET_KEY with
      | Some claims => (Next, {| locals_user := Some claims |})
      | None => (Next, res)
      end
  end.

End Middleware.

(** Modelled from the spec: section 4.4, check 1 ([middleware/auth.js]
    is not among the sources): passes iff the identity context is
    non-empty; denial kind Unauthorized. *)
Definition ensureLoggedIn (req : request) (res : locals) : outcome :=
  match locals_user res with
  | Some _ => Next
  | None => NextErr (UnauthorizedError "Unauthorized")
  end.

(** Modelled from the spec: section 4.4, check 2: passes iff the
    identity context is non-empty and [isAdmin] is true. *)
Definition ensureIsAdmin (req : request) (res : locals) : outcome :=
  match locals_user res with
  | Some u => if isAdmin u then Next
              else NextErr (UnauthorizedError "Unauthorized")
  | None => NextErr (UnauthorizedError "Unauthorized")
  end.

(** Modelled from the spec: section 4.4, check 3: passes iff the
    identity context is non-empty and [isAdmin] is true or the subject
    name equals the target subject name of the route. *)
Definition ensureIsAdminOrSelf (req : request) (res : locals) : outcome :=
  match locals_user res with
  | Some u =>
      if isAdmin u || String.eqb (username u) (params_username req) then Next
      else NextErr (UnauthorizedError "Unauthorized")
  | None => NextErr (UnauthorizedError "Unauthorized")
  end.

End Auth.

(** ** The specification's wording, for comparison *)

Module Spec.

(** The column of an assignment as the specification words it:
    [columnMap[key]] if present, else the key itself. *)
Definition column (columnMap : gmap string string) (key : string) : string :=
  default key (columnMap !! key).

(** One predicate if the key is active, none otherwise. *)
Definition predicate (active : bool) (text : string) : list string :=
  if active then [text] else [].

(** The predicates of a company listing in the order the specification
    gives: name first, then the numeric bounds. *)
Definition companyPredicates (f : Company.filters) : list string :=
  predicate (truthy (Company.nameLike f))
    ("name ILIKE " +:+ PgFormat.quoteLiteral
       (JStr ("%" +:+ toString (Company.nameLike f) +:+ "%")))
  ++ predicate (truthy (Company.minEmployees f))
    ("num_employees >= " +:+ PgFormat.quoteLiteral (Company.minEmployees f))
  ++ predicate (truthy (Company.maxEmployees f))
    ("num_employees <= " +:+ PgFormat.quoteLiteral (Company.maxEmployees f)).

(** The predicates of a job listing: title first, then the numeric
    bound, then the boolean flag, which is active whenever it is
    defined. *)
Definition jobPredicates (f : Job.filters) : list string :=
  predicate (truthy (Job.title f))
    ("title ILIKE " +:+ PgFormat.quoteLiteral
       (JStr ("%" +:+ toString (Job.title f) +:+ "%")))
  ++ predicate (truthy (Job.minSalary f))
    ("salary >= " +:+ PgFormat.quoteLiteral (Job.minSalary f))
  ++ predicate (isDefined (Job.hasEquity f))
    (if truthy (Job.hasEquity f) then "equity >= 0"
     else "(equity = 0 OR equity = NULL)").

(** The clause for a list of predicates: joined with AND, prefixed with
    WHERE when there is at least one. *)
Definition clause (predicates : list string) : string :=
  match predicates with
  | [] => ""
  | _ => "WHERE " +:+ join " AND " predicates
  end.

(** The escaped body of a string constant and whether it needs the
    [E] prefix, as recursive functions of the value. *)
Fixpoint escaped (s : string) : string :=
  match s with
  | "" => ""
  | String c rest =>
      if Ascii.eqb c "'" || Ascii.eqb c "\" then
        String c (String c (escaped rest))
      else String c (escaped rest)
  end.

Fixpoint hasBackslash (s : string) : bool :=
  match s with
  | "" => false
  | String c rest => Ascii.eqb c "\" || hasBackslash rest
  end.

(** The input does not start with the character [c]. *)
Definition notStartsWith (c : ascii) (s : string) : Prop :=
  match s with
  | String d _ => d <> c
  | "" => True
  end.

(** The character [c] does not occur in [s]. *)
Fixpoint absent (c : ascii) (s : string) : Prop :=
  match s with
  | String d rest => d <> c /\ absent c rest
  | "" => True
  end.

End Spec.

(** ** Reading a SET list back

    How the store reads the assignment list and the placeholders it is
    sent.  Like [Lexer], this is not part of the program. *)

Module Scanner.

Definition isDigit (c : ascii) : bool :=
  (48 <=? N_of_ascii c)%N && (N_of_ascii c <=? 57)%N.

Definition digitValue (c : ascii) : N := (N_of_ascii c - 48)%N.

(** The decimal number at the head of the input, continuing the value
    [acc], and the input after its last digit. *)
Fixpoint readDigits (acc : N) (s : string) : N * string :=
  match s with
  | String c rest =>
      if isDigit c then readDigits (acc * 10 + digitValue c)%N rest
      else (acc, s)
  | "" => (acc, s)
  end.

(** A positional parameter: a dollar sign and at least one digit. *)
Definition placeholder (s : string) : option (N * string) :=
  match s with
  | String c rest =>
      if Ascii.eqb c "$" then
        match rest with
        | String d _ => if isDigit d then Some (readDigits 0 rest) else None
        | "" => None
        end
      else None
  | "" => None
  end.

(** One assignment: a quoted identifier, an equals sign, a positional
    parameter. *)
Definition assignment (s : string) : option ((string * N) * string) :=
  '(name, rest) ← Lexer.quotedIdent s;
  match rest with
  | String c rest' =>
      if Ascii.eqb c "=" then
        '(n, rest'') ← placeholder rest';
        Some ((name, n), rest'')
      else None
  | "" => None
  end.

(** A whole SET list: assignments separated by a comma and a space, up
    to the end of the input.  [fuel] bounds the number of assignments. *)
Fixpoint assignments (fuel : nat) (s : string) : option (list (string * N)) :=
  match fuel with
  | O => None
  | S fuel' =>
      '(a, rest) ← assignment s;
      match rest with
      | "" => Some [a]
      | String c (String d rest') =>
          if Ascii.eqb c "," && Ascii.eqb d " " then
            cons a <$> assignments fuel' rest'
          else None
      | _ => None
      end
  end.

End Scanner.

(** ** The other statements of the models, as the store runs them *)

(** How a model method ends: with a value, with an error of
    [expressError] thrown by the method, or with the store rejecting a
    statement. *)
Inductive result (A : Type) : Type :=
  | Returned (a : A)
  | Threw (e : expressError)
  | QueryFailed.

Arguments Returned {A} a.
Arguments Threw {A} e.
Arguments QueryFailed {A}.

Module Pg.

(** [SELECT handle FROM companies WHERE handle = $1]. *)
Definition selectHandle (db : Db.t) (h : string) : list string :=
  match Db.companies db !! h with
  | Some c => [Db.handle c]
  | None => []
  end.

(** [INSERT INTO companies ... RETURNING ...]: the new store and the
    returned row; [None] when the primary key [handle] is taken. *)
Definition insertCompany (db : Db.t) (c : Db.company)
    : option (Db.t * Db.company) :=
  match Db.companies db !! Db.handle c with
  | Some _ => None
  | None =>
      Some ({| Db.companies := <[Db.handle c := c]> (Db.companies db);
               Db.jobs := Db.jobs db;
               Db.jobs_id_seq := Db.jobs_id_seq db |}, c)
  end.

(** A row of [companies c LEFT JOIN jobs j ON j.company_handle =
    c.handle], with the columns [Company.get] selects; the job columns
    are [JNull] in the row of a company without jobs. *)
Record companyJob : Type := {
  c_handle : string;
  c_name : string;
  c_description : string;
  c_numEmployees : jsval;
  c_logoUrl : jsval;
  j_id : jsval;
  j_title : jsval;
  j_salary : jsval;
  j_equity : jsval
}.

Definition joined (c : Db.company) (j : Db.job) : companyJob :=
  {| c_handle := Db.handle c; c_name := Db.name c;
     c_description := Db.description c;
     c_numEmployees := Db.numEmployees c; c_logoUrl := Db.logoUrl c;
     j_id := JNum (Db.id j); j_title := Db.title j;
     j_salary := Db.salary j; j_equity := Db.equity j |}.

Definition unjoined (c : Db.company) : companyJob :=
  {| c_handle := Db.handle c; c_name := Db.name c;
     c_description := Db.description c;
     c_numEmployees := Db.numEmployees c; c_logoUrl := Db.logoUrl c;
     j_id := JNull; j_title := JNull; j_salary := JNull; j_equity := JNull |}.

(** The jobs of the company [h], in table order. *)
Definition jobsOf (db : Db.t) (h : string) : list Db.job :=
  filter (fun j => Db.company_handle j = h) (Db.jobs db).

(** [SELECT ... FROM companies c LEFT JOIN jobs j ... WHERE c.handle =
    $1]: one row per job of the company, or one row without a job. *)
Definition selectCompanyJobs (db : Db.t) (h : string) : list companyJob :=
  match Db.companies db !! h with
  | None => []
  | Some c =>
      match jobsOf db h with
      | [] => [unjoined c]
      | js => joined c <$> js
      end
  end.

(** [SELECT ... FROM jobs j INNER JOIN companies c ON c.handle =
    j.company_handle WHERE j.id = $1]: the jobs with that id that have
    their company, each with it. *)
Definition selectJob (db : Db.t) (i : Z) : list (Db.job * Db.company) :=
  omap (fun j => c ← Db.companies db !! Db.company_handle j; Some (j, c))
    (filter (fun j => Db.id j = i) (Db.jobs db)).

(** [DELETE FROM jobs WHERE id = $1 RETURNING id]. *)
Definition deleteJob (db : Db.t) (i : Z) : Db.t * list Z :=
  ({| Db.companies := Db.companies db;
      Db.jobs := filter (fun j => Db.id j <> i) (Db.jobs db);
      Db.jobs_id_seq := Db.jobs_id_seq db |},
   Db.id <$> filter (fun j => Db.id j = i) (Db.jobs db)).

(** The value bound to the positional parameter [$n]. *)
Definition param (params : list jsval) (n : N) : option jsval :=
  if (n =? 0)%N then None else params !! (N.to_nat n - 1)%nat.

(** The three data columns of [jobs]. *)
Definition settable (col : string) : bool :=
  String.eqb col "title" || String.eqb col "salary" || String.eqb col "equity".

(** The columns of [jobs]: the data columns, the key [id] and the
    reference [company_handle]. *)
Definition isColumn (col : string) : bool :=
  settable col || String.eqb col "id" || String.eqb col "company_handle".

(** The SET list with its parameters bound; [None] when a parameter is
    missing or the table has no such column. *)
Fixpoint bindSet (assigns : list (string * N)) (params : list jsval)
    : option (list (string * jsval)) :=
  match assigns with
  | [] => Some []
  | (col, n) :: rest =>
      v ← param params n;
      if isColumn col then
        sets ← bindSet rest params;
        Some ((col, v) :: sets)
      else None
  end.

(** Assigning to a column of a row of [jobs]; the data columns hold the
    value as [Db.stored] and [Db.numeric] give it.  [None] when the
    value does not fit the column: [id] takes a number and
    [company_handle] a string.  The other constraints of the columns
    are not represented. *)
Definition setColumn (col : string) (v : jsval) (j : Db.job) : option Db.job :=
  if String.eqb col "title" then
    Some {| Db.id := Db.id j; Db.title := Db.stored v; Db.salary := Db.salary j;
            Db.equity := Db.equity j; Db.company_handle := Db.company_handle j |}
  else if String.eqb col "salary" then
    Some {| Db.id := Db.id j; Db.title := Db.title j; Db.salary := Db.stored v;
            Db.equity := Db.equity j; Db.company_handle := Db.company_handle j |}
  else if String.eqb col "equity" then
    Some {| Db.id := Db.id j; Db.title := Db.title j; Db.salary := Db.salary j;
            Db.equity := Db.numeric v; Db.company_handle := Db.company_handle j |}
  else if String.eqb col "id" then
    match v with
    | JNum n =>
        Some {| Db.id := n; Db.title := Db.title j; Db.salary := Db.salary j;
                Db.equity := Db.equity j;
                Db.company_handle := Db.company_handle j |}
    | _ => None
    end
  else if String.eqb col "company_handle" then
    match v with
    | JStr h =>
        Some {| Db.id := Db.id j; Db.title := Db.title j;
                Db.salary := Db.salary j; Db.equity := Db.equity j;
                Db.company_handle := h |}
    | _ => None
    end
  else None.

(** The bound assignments applied to one row. *)
Fixpoint applySet (sets : list (string * jsval)) (j : Db.job)
    : option Db.job :=
  match sets with
  | [] => Some j
  | (col, v) :: rest => j' ← setColumn col v j; applySet rest j'
  end.

(** [UPDATE jobs SET <setCols> WHERE id = <whereParam> RETURNING ...]
    with the parameters [params]: the returned rows and the new store,
    in which the new versions of the rows come after the rows that were
    not touched.  The SET list and the placeholder are read from the
    text the model sends.  [None] when the statement fails: the text
    cannot be read, a column is assigned twice or does not exist, a
    parameter is missing, the id is not a number, a value does not fit
    its column, an assigned [id] is taken, or an assigned
    [company_handle] references no company. *)
Definition updateJobs (setCols whereParam : string) (params : list jsval)
    (db : Db.t) : option (list Db.job * Db.t) :=
  assigns ← Scanner.assignments (String.length setCols) setCols;
  if bool_decide (NoDup assigns.*1) then
    '(n, rest) ← Scanner.placeholder whereParam;
    if String.eqb rest "" then
      key ← param params n;
      sets ← bindSet assigns params;
      match key with
      | JNum i =>
          updated ← mapM (applySet sets)
                      (filter (fun j => Db.id j = i) (Db.jobs db));
          let jobs' :=
            (filter (fun j => Db.id j <> i) (Db.jobs db) ++ updated)%list in
          if bool_decide ("id" ∉ sets.*1 \/ NoDup (Db.id <$> jobs'))
             && bool_decide
                  ("company_handle" ∉ sets.*1
                   \/ Forall (fun j => is_Some (Db.companies db
                                                  !! Db.company_handle j))
                        updated)
          then
            Some (updated,
                  {| Db.companies := Db.companies db;
                     Db.jobs := jobs';
                     Db.jobs_id_seq := Db.jobs_id_seq db |})
          else None
      | _ => None
      end
    else None
  else None.

End Pg.

(** ** [models/company.js]: [create] and [get] *)

Module CompanyStore.

(** [Company.create]. *)
Definition create (data : Db.company) (db : Db.t)
    : result Db.company * Db.t :=
  let duplicateCheck := Pg.selectHandle db (Db.handle data) in
  match head duplicateCheck with
  | Some _ =>
      (Threw (BadRequestError ("Duplicate company: " +:+ Db.handle data)), db)
  | None =>
      match Pg.insertCompany db data with
      | Some (db', company) => (Returned company, db')
      | None => (QueryFailed, db)
      end
  end.

(** An element of the [jobs] array of [Company.get]. *)
Record job : Type := {
  id : jsval;
  title : jsval;
  salary : jsval;
  equity : jsval
}.

(** What [Company.get] returns. *)
Record company : Type := {
  handle : string;
  name : string;
  description : string;
  numEmployees : jsval;
  logoUrl : jsval;
  jobs : list job
}.

(** [v !== null]. *)
Definition notNull (v : jsval) : bool :=
  match v with JNull => false | _ => true end.

(** [Company.get]. *)
Definition get (handle : string) (db : Db.t) : expressError + company :=
  let rows := Pg.selectCompanyJobs db handle in
  match head rows with
  | None => inl (NotFoundError ("No company: " +:+ handle))
  | Some row0 =>
      let jobs :=
        if (1 <? length rows)%nat || notNull (Pg.j_id row0) then
          (fun r => {| id := Pg.j_id r; title := Pg.j_title r;
                       salary := Pg.j_salary r; equity := Pg.j_equity r |})
            <$> rows
        else [] in
      inr {| handle := handle; name := Pg.c_name row0;
             description := Pg.c_description row0;
             numEmployees := Pg.c_numEmployees row0;
             logoUrl := Pg.c_logoUrl row0; jobs := jobs |}
  end.

End CompanyStore.

(** ** [models/job.js]: [get], [update] and [delete] *)

Module JobStore.

(** The company object nested in what [Job.get] returns. *)
Record company : Type := {
  handle : string;
  name : string;
  numEmployees : jsval;
  description : string;
  logoUrl : jsval
}.

(** What [Job.get] returns. *)
Record job : Type := {
  id : Z;
  title : jsval;
  salary : jsval;
  equity : jsval;
  job_company : company
}.

(** The arrow function of [result.rows.map]. *)
Definition nest (r : Db.job * Db.company) : job :=
  {| id := Db.id r.1; title := Db.title r.1; salary := Db.salary r.1;
     equity := Db.equity r.1;
     job_company :=
       {| handle := Db.handle r.2; name := Db.name r.2;
          numEmployees := Db.numEmployees r.2;
          description := Db.description r.2; logoUrl := Db.logoUrl r.2 |} |}.

(** [Job.get]: the first of the mapped rows, [rows.map(...)[0]], which
    exists when [rows[0]] does. *)
Definition get (id : Z) (db : Db.t) : expressError + job :=
  let rows := Pg.selectJob db id in
  match head rows with
  | None => inl (NotFoundError ("No job: " +:+ pretty id))
  | Some row0 => inr (default (nest row0) (head (nest <$> rows)))
  end.

(** [Job.update]. *)
Definition update (id : Z) (data : object) (db : Db.t)
    : result Db.job * Db.t :=
  match Sql.sqlForPartialUpdate data ∅ with
  | inl e => (Threw e, db)
  | inr r =>
      let idVarIdx :=
        "$" +:+ pretty (length (Sql.values r) + 1)%nat in
      match Pg.updateJobs (Sql.setCols r) idVarIdx
              (Sql.values r ++ [JNum id]) db with
      | None => (QueryFailed, db)
      | Some (rows, db') =>
          match head rows with
          | Some job => (Returned job, db')
          | None => (Threw (NotFoundError ("No job: " +:+ pretty id)), db')
          end
      end
  end.

(** [Job.delete]. *)
Definition delete (id : Z) (db : Db.t) : (expressError + unit) * Db.t :=
  let '(db', rows) := Pg.deleteJob db id in
  match head rows with
  | Some _ => (inr tt, db')
  | None => (inl (NotFoundError ("No job: " +:+ pretty id)), db')
  end.

End JobStore.

(** ** What the store keeps *)

(** The constraints of the two tables: [handle] is the key of
    [companies], [id] is the key of [jobs] and comes from the sequence,
    and every job references a company. *)
Record consistent (db : Db.t) : Prop := {
  company_keys :
    forall h c, Db.companies db !! h = Some c -> Db.handle c = h;
  job_keys : NoDup (Db.id <$> Db.jobs db);
  job_ids_issued :
    forall j, j ∈ Db.jobs db -> (Db.id j < Db.jobs_id_seq db)%Z;
  job_references :
    forall j, j ∈ Db.jobs db ->
      is_Some (Db.companies db !! Db.company_handle j)
}.

(** The input does not start with a digit. *)
Definition notDigitHead (s : string) : Prop :=
  match s with
  | String c _ => Scanner.isDigit c = false
  | "" => True
  end.

(** The assignments the SET list of [sqlForPartialUpdate] stands for:
    each column with the number of its placeholder. *)
Definition setList (dataToUpdate : object) (jsToSql : gmap string string)
    : list (string * N) :=
  imap (fun idx colName => (Sql.column jsToSql colName, N.of_nat (idx + 1)))
    (keys dataToUpdate).

(** The value a field mapping gives to a key. *)
Fixpoint valueOf (k : string) (data : object) : option jsval :=
  match data with
  | [] => None
  | (k', v) :: rest => if String.eqb k' k then Some v else valueOf k rest
  end.

(** A row of [jobs] after a partial update of its data columns: each
    of [title], [salary] and [equity] holds the value the mapping gives
    it, as the store holds it, and keeps its own when the mapping has
    none. *)
Definition patched (data : object) (j : Db.job) : Db.job :=
  {| Db.id := Db.id j;
     Db.title := default (Db.title j) (Db.stored <$> valueOf "title" data);
     Db.salary := default (Db.salary j) (Db.stored <$> valueOf "salary" data);
     Db.equity := default (Db.equity j) (Db.numeric <$> valueOf "equity" data);
     Db.company_handle := Db.company_handle j |}.

(** The values the job schema and the checks of the routes let through
    for the data columns: a string for [title], a non-negative integer
    that fits the column for [salary], and for [equity] a number from 0
    to 1 or, in an update, null. *)
Definition jobValue (k : string) (v : jsval) : Prop :=
  (k = "title" -> exists s, v = JStr s)
  /\ (k = "salary" -> exists n, v = JNum n /\ (0 <= n < 2 ^ 31)%Z)
  /\ (k = "equity" ->
        v = JNull \/ exists q, v = JNum q /\ (0 <= q <= 1)%Z).

(** The integers JavaScript holds exactly and writes with all their
    digits. *)
Definition safeInteger (n : Z) : Prop :=
  (- 9007199254740991 <= n <= 9007199254740991)%Z.

(** * Properties *)

(** ** Strings *)

#[local] Arguments String.append !_ _ / : simpl nomatch.

Lemma append_assoc (a b c : string) : (a +:+ b) +:+ c = a +:+ b +:+ c.
Proof. induction a as [|x a IH]; simpl; [done | by rewrite IH]. Qed.

Lemma append_nil_r (a : string) : a +:+ "" = a.
Proof. induction a as [|x a IH]; simpl; [done | by rewrite IH]. Qed.

Lemma join_cons (sep x : string) (l : list string) :
  join sep (x :: l) =
  x +:+ match l with [] => "" | _ => sep +:+ join sep l end.
Proof. destruct l; simpl; [by rewrite append_nil_r | done]. Qed.

(** ** [sqlForPartialUpdate] *)

Section SqlFacts.

Import Sql.


Lemma cols_lookup (data : object) (m : gmap string string)
    (i : nat) (k : string) (v : jsval) :
  data !! i = Some (k, v) ->
  cols data m !! i = Some (assignment m i k).
Proof.
  intros Hi. unfold cols, keys.
  by rewrite list_lookup_imap, list_lookup_fmap, Hi.
Qed.

Lemma values_lookup (data : object) (i : nat) (k : string) (v : jsval) :
  data !! i = Some (k, v) -> JS.values data !! i = Some v.
Proof. intros Hi. unfold JS.values. by rewrite list_lookup_fmap, Hi. Qed.



Lemma sqlForPartialUpdate_nonempty (data : object) (m : gmap string string) :
  data <> [] ->
  sqlForPartialUpdate data m =
  inr {| setCols := join ", " (cols data m); values := JS.values data |}.
Proof.
  intros Hne. unfold sqlForPartialUpdate, keys.
  rewrite length_fmap. destruct data; [done | reflexivity].
Qed.

(** A name without a double quote, wrapped in double quotes, is read
    back whole. *)
Lemma identBody_absent (name tail : string) :
  Spec.absent dquote name ->
  Spec.notStartsWith dquote tail ->
  Lexer.identBody (name +:+ dq +:+ tail) = Some (name, tail).
Proof.
  intros Hname Htail. induction name as [|c name IH]; simpl.
  - destruct tail as [|d tail]; [done |].
    simpl in Htail. apply Ascii.eqb_neq in Htail. by rewrite Htail.
  - destruct Hname as [Hc Hname]. apply Ascii.eqb_neq in Hc.
    specialize (IH Hname). simpl in IH. rewrite Hc, IH. reflexivity.
Qed.

Lemma quotedIdent_assignment (m : gmap string string) (i : nat)
    (k pre tail : string) :
  Spec.absent dquote pre ->
  Spec.notStartsWith dquote tail ->
  assignment m i k = dq +:+ pre +:+ dq +:+ tail ->
  Lexer.quotedIdent (assignment m i k) = Some (pre, tail).
Proof.
  intros Hpre Htail ->. unfold Lexer.quotedIdent, dq at 1. simpl.
  by apply (identBody_absent pre tail).
Qed.

End SqlFacts.

Section SqlClaims.

Import Sql.




(** A key that names a member of [Object.prototype] and is not in the
    column map is written with the text of that member. *)
Example sqlForPartialUpdate_inherited :
  sqlForPartialUpdate [("constructor", JNum 1)] ∅ =
  inr {| setCols := dq +:+ "function Object() { [native code] }" +:+ dq
                    +:+ "=$1";
         values := [JNum 1] |}.
Proof. reflexivity. Qed.

(** C5: [sqlForPartialUpdate] on an empty field mapping fails with the
    bad-request error (status 400, message "No data") whatever the column
    map is, and on a non-empty one it returns a result and no error. *)
Theorem sqlForPartialUpdate_no_data (data : object) (m : gmap string string) :
  (data = [] <->
     sqlForPartialUpdate data m = inl (BadRequestError "No data"))
  /\ (data <> [] <-> exists r, sqlForPartialUpdate data m = inr r)
  /\ (forall e, sqlForPartialUpdate data m = inl e ->
        e = BadRequestError "No data" /\ status e = 400%Z).
Proof.
  destruct data as [|kv data].
  - split; [done |]. split; [| by intros e [= <-]].
    split; [done | by intros [r [=]]].
  - split; [split; [done | by rewrite sqlForPartialUpdate_nonempty] |].
    split; [| by rewrite sqlForPartialUpdate_nonempty].
    split; [| done]. intros _. eexists. by apply sqlForPartialUpdate_nonempty.
Qed.

(** C10: every assignment is the resolved column wrapped in double
    quotes by the function itself, the name copied as it is; so when the
    name holds a double quote, the quoted identifier a SQL lexer reads
    ends at the first such quote when another character follows it,
    before the name does; the field name made of
    [a], a double quote and [b] is such a name. *)
Theorem sqlForPartialUpdate_identifier_not_escaped :
  (forall (data : object) (m : gmap string string) i k v,
      data !! i = Some (k, v) ->
      cols data m !! i =
        Some (dq +:+ column m k +:+ dq +:+ "=$" +:+ pretty (i + 1)%nat))
  /\ (forall (m : gmap string string) i k pre d post,
        column m k = pre +:+ dq +:+ String d post ->
        Spec.absent dquote pre ->
        d <> dquote ->
        Lexer.quotedIdent (assignment m i k) =
          Some (pre, String d post +:+ dq +:+ "=$" +:+ pretty (i + 1)%nat))
  /\ (let k := "a" +:+ dq +:+ "b" in
      forall v, exists r,
        sqlForPartialUpdate [(k, v)] ∅ = inr r
        /\ setCols r = dq +:+ k +:+ dq +:+ "=$1"
        /\ Lexer.quotedIdent (setCols r) = Some ("a", "b" +:+ dq +:+ "=$1")).
Proof.
  split; [intros data m i k v Hi; by rewrite (cols_lookup _ _ _ _ _ Hi) |].
  split.
  - intros m i k pre d post Hcol Hpre Hd.
    apply quotedIdent_assignment; [done | done |].
    unfold assignment. rewrite Hcol. by rewrite !append_assoc.
  - intros k v. eexists. split; [reflexivity |]. by vm_compute.
Qed.

End SqlClaims.

(** ** Literal quoting *)

Section QuotingFacts.

Import PgFormat.

Lemma quoteLoop_eq (literal quoted : string) (b : bool) :
  quoteLoop literal quoted b =
  (quoted +:+ Spec.escaped literal, b || Spec.hasBackslash literal).
Proof.
  revert quoted b. induction literal as [|c rest IH]; intros quoted b; simpl.
  - by rewrite append_nil_r, orb_false_r.
  - destruct (Ascii.eqb c "'") eqn:Hq; [| destruct (Ascii.eqb c "\") eqn:Hb];
      rewrite IH, append_assoc; simpl; try done.
    + apply Ascii.eqb_eq in Hq as ->. done.
    + by rewrite orb_true_r.
Qed.

Lemma quoteString_eq (literal : string) :
  quoteString literal =
  (if Spec.hasBackslash literal then "E" else "")
    +:+ "'" +:+ Spec.escaped literal +:+ "'".
Proof.
  unfold quoteString. rewrite quoteLoop_eq. simpl.
  by destruct (Spec.hasBackslash literal).
Qed.

(** The escaped body followed by the closing quote is read back as the
    value, whatever follows, unless what follows starts with a quote. *)
Lemma stringBody_escaped (esc : bool) (literal tail : string) :
  (Spec.hasBackslash literal = true -> esc = true) ->
  Spec.notStartsWith "'" tail ->
  Lexer.stringBody esc (Spec.escaped literal +:+ "'" +:+ tail) =
  Some (literal, tail).
Proof.
  intros Hesc Htail. induction literal as [|c rest IH]; simpl.
  - destruct tail as [|d tail]; [done |].
    simpl in Htail. apply Ascii.eqb_neq in Htail. by rewrite Htail.
  - simpl in Hesc.
    assert (Hrest : Spec.hasBackslash rest = true -> esc = true).
    { intros H. apply Hesc. rewrite H. apply orb_true_r. }
    specialize (IH Hrest). simpl in IH.
    destruct (Ascii.eqb c "'") eqn:Hq.
    + apply Ascii.eqb_eq in Hq as ->. simpl. by rewrite IH.
    + destruct (Ascii.eqb c "\") eqn:Hb; simpl in *.
      * apply Ascii.eqb_eq in Hb as ->. rewrite (Hesc eq_refl) in *.
        simpl. by rewrite IH.
      * rewrite Hq, Hb, andb_false_r. by rewrite IH.
Qed.

Lemma stringConstant_quoteString (literal tail : string) :
  Spec.notStartsWith "'" tail ->
  Lexer.stringConstant (quoteString literal +:+ tail) = Some (literal, tail).
Proof.
  intros Htail. rewrite quoteString_eq, !append_assoc.
  destruct (Spec.hasBackslash literal) eqn:Hb;
    apply (stringBody_escaped _ literal tail); [done | done | | done].
  by rewrite Hb.
Qed.

Lemma format_name (v : jsval) :
  format "name ILIKE %L" [v] = Some ("name ILIKE " +:+ quoteLiteral v).
Proof. simpl. by rewrite append_nil_r. Qed.

Lemma format_title (v : jsval) :
  format "title ILIKE %L" [v] = Some ("title ILIKE " +:+ quoteLiteral v).
Proof. simpl. by rewrite append_nil_r. Qed.

Lemma format_min_employees (v : jsval) :
  format "num_employees >= %L" [v] =
  Some ("num_employees >= " +:+ quoteLiteral v).
Proof. simpl. by rewrite append_nil_r. Qed.

Lemma format_max_employees (v : jsval) :
  format "num_employees <= %L" [v] =
  Some ("num_employees <= " +:+ quoteLiteral v).
Proof. simpl. by rewrite append_nil_r. Qed.

Lemma format_min_salary (v : jsval) :
  format "salary >= %L" [v] = Some ("salary >= " +:+ quoteLiteral v).
Proof. simpl. by rewrite append_nil_r. Qed.

End QuotingFacts.

(** ** The filter clauses *)

Section FilterFacts.

(** The pushes of [Company.findAll] produce the predicates in the
    specification's order. *)
Lemma company_conditions_eq (f : Company.filters) :
  Company.conditions (Some f) = Some (Spec.companyPredicates f).
Proof.
  unfold Company.conditions, Spec.companyPredicates, Spec.predicate, push.
  rewrite format_name, format_min_employees, format_max_employees.
  destruct (truthy (Company.nameLike f)), (truthy (Company.minEmployees f)),
    (truthy (Company.maxEmployees f)); reflexivity.
Qed.

Lemma job_conditions_eq (f : Job.filters) :
  Job.conditions (Some f) = Some (Spec.jobPredicates f).
Proof.
  unfold Job.conditions, Spec.jobPredicates, Spec.predicate, push.
  rewrite format_title, format_min_salary.
  destruct (truthy (Job.title f)), (truthy (Job.minSalary f)),
    (isDefined (Job.hasEquity f)), (truthy (Job.hasEquity f)); reflexivity.
Qed.

Lemma whereClause_eq (conditions : list string) :
  whereClause conditions = Spec.clause conditions.
Proof. by destruct conditions. Qed.

Lemma company_clause_eq (f : Company.filters) :
  Company.findAll_whereClause (Some f) =
  Some (Spec.clause (Spec.companyPredicates f)).
Proof.
  unfold Company.findAll_whereClause.
  by rewrite company_conditions_eq, <- whereClause_eq.
Qed.

Lemma job_clause_eq (f : Job.filters) :
  Job.findAll_whereClause (Some f) = Some (Spec.clause (Spec.jobPredicates f)).
Proof.
  unfold Job.findAll_whereClause.
  by rewrite job_conditions_eq, <- whereClause_eq.
Qed.

Lemma companyPredicates_name (f : Company.filters) :
  truthy (Company.nameLike f) = true ->
  Spec.companyPredicates f =
  ("name ILIKE " +:+ PgFormat.quoteLiteral
     (JStr ("%" +:+ toString (Company.nameLike f) +:+ "%")))
  :: (Spec.predicate (truthy (Company.minEmployees f))
        ("num_employees >= " +:+ PgFormat.quoteLiteral (Company.minEmployees f))
      ++ Spec.predicate (truthy (Company.maxEmployees f))
        ("num_employees <= " +:+ PgFormat.quoteLiteral (Company.maxEmployees f))).
Proof. unfold Spec.companyPredicates. by intros ->. Qed.

Lemma jobPredicates_title (f : Job.filters) :
  truthy (Job.title f) = true ->
  Spec.jobPredicates f =
  ("title ILIKE " +:+ PgFormat.quoteLiteral
     (JStr ("%" +:+ toString (Job.title f) +:+ "%")))
  :: (Spec.predicate (truthy (Job.minSalary f))
        ("salary >= " +:+ PgFormat.quoteLiteral (Job.minSalary f))
      ++ Spec.predicate (isDefined (Job.hasEquity f))
        (if truthy (Job.hasEquity f) then "equity >= 0"
         else "(equity = 0 OR equity = NULL)")).
Proof. unfold Spec.jobPredicates. by intros ->. Qed.

End FilterFacts.

Section FilterClaims.

Import PgFormat.

Lemma clause_head (p : string) (ps : list string) :
  Spec.clause (p :: ps) =
  "WHERE " +:+ p +:+ match ps with [] => "" | _ => " AND " +:+ join " AND " ps end.
Proof. unfold Spec.clause. by rewrite join_cons. Qed.

Lemma tail_not_quote (ps : list string) :
  Spec.notStartsWith "'"
    match ps with [] => "" | _ => " AND " +:+ join " AND " ps end.
Proof. by destruct ps. Qed.

(** C2: when the substring filter ([nameLike] for companies, [title] for
    jobs) is supplied with a truthy value, the clause starts with a
    case-insensitive pattern predicate on the text column whose operand
    is the value between percent signs, passed through the literal
    quoting of [pg-format]; read back as a SQL string constant, the
    operand is exactly that value and the rest of the clause follows it,
    whatever quote characters the value holds. *)
Theorem substring_filter_escaped (v : jsval) :
  truthy v = true ->
  let value := "%" +:+ toString v +:+ "%" in
  (forall mn mx, exists lit tail,
      Company.findAll_whereClause
        (Some {| Company.nameLike := v; Company.minEmployees := mn;
                 Company.maxEmployees := mx |}) =
        Some ("WHERE name ILIKE " +:+ lit +:+ tail)
      /\ lit = quoteLiteral (JStr value)
      /\ Lexer.stringConstant (lit +:+ tail) = Some (value, tail))
  /\ (forall ms he, exists lit tail,
      Job.findAll_whereClause
        (Some {| Job.title := v; Job.minSalary := ms; Job.hasEquity := he |}) =
        Some ("WHERE title ILIKE " +:+ lit +:+ tail)
      /\ lit = quoteLiteral (JStr value)
      /\ Lexer.stringConstant (lit +:+ tail) = Some (value, tail)).
Proof.
  intros Hv value. split.
  - intros mn mx.
    rewrite company_clause_eq,
      (companyPredicates_name (Company.Build_filters v mn mx) Hv), clause_head.
    eexists (quoteLiteral (JStr value)), _.
    split; [rewrite !append_assoc; reflexivity |]. split; [reflexivity |].
    apply (stringConstant_quoteString value), tail_not_quote.
  - intros ms he.
    rewrite job_clause_eq,
      (jobPredicates_title (Job.Build_filters v ms he) Hv), clause_head.
    eexists (quoteLiteral (JStr value)), _.
    split; [rewrite !append_assoc; reflexivity |]. split; [reflexivity |].
    apply (stringConstant_quoteString value), tail_not_quote.
Qed.

Lemma substring_filter_escaped_witness :
  truthy (JStr "O'Reilly") = true
  /\ exists lit tail,
      Company.findAll_whereClause
        (Some {| Company.nameLike := JStr "O'Reilly";
                 Company.minEmployees := JNum 2;
                 Company.maxEmployees := JUndefined |}) =
        Some ("WHERE name ILIKE " +:+ lit +:+ tail)
      /\ lit = "'%O''Reilly%'"
      /\ Lexer.stringConstant (lit +:+ tail) = Some ("%O'Reilly%", tail).
Proof.
  split; [reflexivity |].
  destruct (substring_filter_escaped (JStr "O'Reilly") eq_refl) as [Hc _].
  destruct (Hc (JNum 2) JUndefined) as (lit & tail & H1 & H2 & H3).
  exists lit, tail. split; [exact H1 |]. split; [| exact H3].
  rewrite H2. reflexivity.
Defined.

(** C6, as stated, fails for jobs: [hasEquity: false] is falsy and
    still contributes a predicate, so the clause is not empty. *)
Lemma job_clause_hasEquity_false :
  ~ (forall f : Job.filters,
        truthy (Job.title f) = false ->
        truthy (Job.minSalary f) = false ->
        truthy (Job.hasEquity f) = false ->
        Job.findAll_whereClause (Some f) = Some "").
Proof.
  intros H.
  specialize (H {| Job.title := JUndefined; Job.minSalary := JUndefined;
                   Job.hasEquity := JBool false |} eq_refl eq_refl eq_refl).
  vm_compute in H. discriminate H.
Qed.

(** C6, amended: both builders always return a clause; it is the empty
    string when the filters are absent or when every key is absent or
    falsy, where for [hasEquity] only [undefined] counts as absent;
    otherwise the active predicates are joined with AND in the fixed
    order (name or title, then the numeric bounds, then the equity
    flag), with WHERE in front exactly when there is a predicate. *)
Theorem findAll_whereClause_conjunction :
  (forall fo : option Company.filters,
      let ps := from_option Spec.companyPredicates [] fo in
      Company.conditions fo = Some ps
      /\ Company.findAll_whereClause fo = Some (Spec.clause ps)
      /\ (ps = [] <-> Company.findAll_whereClause fo = Some "")
      /\ (ps = [] <->
            fo = None \/
            exists f, fo = Some f
              /\ truthy (Company.nameLike f) = false
              /\ truthy (Company.minEmployees f) = false
              /\ truthy (Company.maxEmployees f) = false))
  /\ (forall fo : option Job.filters,
      let ps := from_option Spec.jobPredicates [] fo in
      Job.conditions fo = Some ps
      /\ Job.findAll_whereClause fo = Some (Spec.clause ps)
      /\ (ps = [] <-> Job.findAll_whereClause fo = Some "")
      /\ (ps = [] <->
            fo = None \/
            exists f, fo = Some f
              /\ truthy (Job.title f) = false
              /\ truthy (Job.minSalary f) = false
              /\ isDefined (Job.hasEquity f) = false)).
Proof.
  assert (Hclause : forall ps, ps = [] <-> Some (Spec.clause ps) = Some "").
  { intros [|p ps]; [done |]. rewrite clause_head. split; [done |].
    intros [= H]. }
  split.
  - intros [f|]; cbn [from_option].
    + rewrite company_clause_eq, company_conditions_eq.
      split; [done |]. split; [done |].
      split; [apply Hclause |].
      unfold Spec.companyPredicates, Spec.predicate. split.
      * intros H. right. exists f. split; [done |].
        destruct (truthy (Company.nameLike f)),
          (truthy (Company.minEmployees f)),
          (truthy (Company.maxEmployees f)); done.
      * intros [[=] | (f' & [= <-] & -> & -> & ->)]. done.
    + repeat split; auto.
  - intros [f|]; cbn [from_option].
    + rewrite job_clause_eq, job_conditions_eq.
      split; [done |]. split; [done |].
      split; [apply Hclause |].
      unfold Spec.jobPredicates, Spec.predicate. split.
      * intros H. right. exists f. split; [done |].
        destruct (truthy (Job.title f)), (truthy (Job.minSalary f)),
          (isDefined (Job.hasEquity f)); done.
      * intros [[=] | (f' & [= <-] & -> & -> & ->)]. done.
    + repeat split; auto.
Qed.

End FilterClaims.

Section BoundClaims.

Import PgFormat.

Lemma truthy_positive (n : Z) : (0 < n)%Z -> truthy (JNum n) = true.
Proof. intros Hn. simpl. destruct (Z.eqb_spec n 0); [lia | done]. Qed.

Lemma stringConstant_number (n : Z) :
  Lexer.stringConstant (quoteLiteral (JNum n)) = Some (pretty n, "").
Proof.
  rewrite <- (append_nil_r (quoteLiteral (JNum n))).
  by apply (stringConstant_quoteString (pretty n) "").
Qed.

Lemma clause_nonempty (ps : list string) :
  ps <> [] -> Spec.clause ps = "WHERE " +:+ join " AND " ps.
Proof. by destruct ps. Qed.

Lemma app_cons_nonempty {A} (l1 l2 : list A) (x : A) :
  (l1 ++ x :: l2)%list <> [].
Proof. by destruct l1. Qed.

(** C7: a minimum bound of 0 ([minEmployees] for companies, [minSalary]
    for jobs) contributes no predicate: the clause the builder returns
    is the clause of the same filters with the key left out, and it is
    empty when the other keys are absent; a positive bound contributes
    the predicate [column >= value]: the clause is WHERE followed by
    the predicates joined with AND, with this one after the name or
    title predicate and before the later ones, and it is the whole
    clause when the other keys are absent.  The value is written as a
    quoted literal, which for a safe integer holds its decimal digits. *)
Theorem min_bound_zero_is_absent (n : Z) (nl mx t he : jsval) :
  (0 < n)%Z ->
  let name := Spec.predicate (truthy nl)
    ("name ILIKE " +:+ quoteLiteral (JStr ("%" +:+ toString nl +:+ "%"))) in
  let max := Spec.predicate (truthy mx)
    ("num_employees <= " +:+ quoteLiteral mx) in
  let title := Spec.predicate (truthy t)
    ("title ILIKE " +:+ quoteLiteral (JStr ("%" +:+ toString t +:+ "%"))) in
  let equity := Spec.predicate (isDefined he)
    (if truthy he then "equity >= 0" else "(equity = 0 OR equity = NULL)") in
  (Company.findAll_whereClause (Some (Company.Build_filters nl (JNum 0) mx)) =
     Company.findAll_whereClause
       (Some (Company.Build_filters nl JUndefined mx))
   /\ Company.findAll_whereClause
        (Some (Company.Build_filters nl (JNum 0) mx)) =
      Some (Spec.clause (name ++ max)%list)
   /\ Company.findAll_whereClause
        (Some (Company.Build_filters JUndefined (JNum 0) JUndefined)) =
      Some ""
   /\ Company.findAll_whereClause
        (Some (Company.Build_filters nl (JNum n) mx)) =
      Some ("WHERE " +:+ join " AND "
              (name ++ ["num_employees >= " +:+ quoteLiteral (JNum n)]
                 ++ max)%list)
   /\ Company.findAll_whereClause
        (Some (Company.Build_filters JUndefined (JNum n) JUndefined)) =
      Some ("WHERE num_employees >= " +:+ quoteLiteral (JNum n)))
  /\ (Job.findAll_whereClause (Some (Job.Build_filters t (JNum 0) he)) =
       Job.findAll_whereClause (Some (Job.Build_filters t JUndefined he))
     /\ Job.findAll_whereClause (Some (Job.Build_filters t (JNum 0) he)) =
        Some (Spec.clause (title ++ equity)%list)
     /\ Job.findAll_whereClause
          (Some (Job.Build_filters JUndefined (JNum 0) JUndefined)) =
        Some ""
     /\ Job.findAll_whereClause (Some (Job.Build_filters t (JNum n) he)) =
        Some ("WHERE " +:+ join " AND "
                (title ++ ["salary >= " +:+ quoteLiteral (JNum n)]
                   ++ equity)%list)
     /\ Job.findAll_whereClause
          (Some (Job.Build_filters JUndefined (JNum n) JUndefined)) =
        Some ("WHERE salary >= " +:+ quoteLiteral (JNum n)))
  /\ (safeInteger n ->
      Lexer.stringConstant (quoteLiteral (JNum n)) = Some (pretty n, "")).
Proof.
  intros Hn name max title equity.
  rewrite !company_clause_eq, !job_clause_eq.
  unfold Spec.companyPredicates, Spec.jobPredicates.
  cbn [Company.nameLike Company.minEmployees Company.maxEmployees
       Job.title Job.minSalary Job.hasEquity].
  rewrite (truthy_positive n Hn).
  change (truthy (JNum 0)) with false. change (truthy JUndefined) with false.
  change (isDefined JUndefined) with false.
  cbn [Spec.predicate]. fold name max title equity.
  split; [| split].
  - split; [done |]. split; [done |]. split; [done |]. split; [| done].
    by rewrite clause_nonempty by apply app_cons_nonempty.
  - split; [done |]. split; [done |]. split; [done |]. split; [| done].
    by rewrite clause_nonempty by apply app_cons_nonempty.
  - intros _. apply stringConstant_number.
Qed.

Lemma min_bound_zero_is_absent_witness :
  (0 < 5)%Z
  /\ Company.findAll_whereClause
       (Some (Company.Build_filters (JStr "net") (JNum 0) JUndefined)) =
     Some "WHERE name ILIKE '%net%'"
  /\ Company.findAll_whereClause
       (Some (Company.Build_filters (JStr "net") (JNum 5) (JNum 9))) =
     Some "WHERE name ILIKE '%net%' AND num_employees >= '5' AND num_employees <= '9'"
  /\ Job.findAll_whereClause
       (Some (Job.Build_filters JUndefined (JNum 5) JUndefined)) =
     Some "WHERE salary >= '5'".
Proof.
  split; [lia |].
  destruct (min_bound_zero_is_absent 5 (JStr "net") JUndefined JUndefined
              JUndefined ltac:(lia))
    as ((_ & H2 & _) & (_ & _ & _ & _ & H5) & _).
  destruct (min_bound_zero_is_absent 5 (JStr "net") (JNum 9) JUndefined
              JUndefined ltac:(lia))
    as ((_ & _ & _ & H4 & _) & _).
  split; [exact H2 |]. split; [exact H4 | exact H5].
Defined.

(** C8: in a job listing, [hasEquity: true] makes the builder emit the
    predicate [equity >= 0] and [hasEquity: false] the predicate
    [(equity = 0 OR equity = NULL)]: the clause returned is WHERE
    followed by the predicates of [title] and [minSalary] and then this
    one, joined with AND, and it is WHERE and this predicate alone when
    the other keys are absent; an undefined [hasEquity] contributes
    nothing: the clause is that of the other keys, and is empty when
    they are absent. *)
Theorem hasEquity_predicate (t ms : jsval) :
  let before :=
    (Spec.predicate (truthy t)
       ("title ILIKE " +:+ quoteLiteral (JStr ("%" +:+ toString t +:+ "%")))
     ++ Spec.predicate (truthy ms) ("salary >= " +:+ quoteLiteral ms))%list in
  (Job.findAll_whereClause (Some (Job.Build_filters t ms (JBool true))) =
     Some ("WHERE " +:+ join " AND " (before ++ ["equity >= 0"])%list)
   /\ Job.findAll_whereClause
        (Some (Job.Build_filters JUndefined JUndefined (JBool true))) =
      Some "WHERE equity >= 0")
  /\ (Job.findAll_whereClause (Some (Job.Build_filters t ms (JBool false))) =
       Some ("WHERE " +:+ join " AND "
               (before ++ ["(equity = 0 OR equity = NULL)"])%list)
     /\ Job.findAll_whereClause
          (Some (Job.Build_filters JUndefined JUndefined (JBool false))) =
        Some "WHERE (equity = 0 OR equity = NULL)")
  /\ (Job.findAll_whereClause (Some (Job.Build_filters t ms JUndefined)) =
       Some (Spec.clause before)
     /\ Job.findAll_whereClause
          (Some (Job.Build_filters JUndefined JUndefined JUndefined)) =
        Some "")
  /\ (Job.conditions (Some (Job.Build_filters t ms (JBool true))) =
       Some (before ++ ["equity >= 0"])%list
     /\ Job.conditions (Some (Job.Build_filters t ms (JBool false))) =
        Some (before ++ ["(equity = 0 OR equity = NULL)"])%list
     /\ Job.conditions (Some (Job.Build_filters t ms JUndefined)) =
        Some before).
Proof.
  intros before. rewrite !job_clause_eq, !job_conditions_eq.
  unfold Spec.jobPredicates.
  cbn [Job.title Job.minSalary Job.hasEquity].
  change (truthy JUndefined) with false.
  cbn [isDefined truthy Spec.predicate].
  rewrite !(assoc_L (++)%list), !app_nil_r. fold before.
  split; [| split; [| split]].
  - split; [| done]. by rewrite clause_nonempty by apply app_cons_nonempty.
  - split; [| done]. by rewrite clause_nonempty by apply app_cons_nonempty.
  - done.
  - done.
Qed.

End BoundClaims.

(** ** [Job.create] *)

Section JobClaims.

Import JobModel.

(** When the company exists, the job is appended to the store with the
    next identifier and returned with the company attached. *)
Lemma create_known_company (data : newJob) (db : Db.t) (c : Db.company) :
  Db.companies db !! companyHandle data = Some c ->
  exists j db',
    create data db = (inr {| job := j; company := c |}, db')
    /\ Db.jobs db' = (Db.jobs db ++ [j])%list
    /\ Db.id j = Db.jobs_id_seq db
    /\ Db.company_handle j = companyHandle data.
Proof.
  intros Hc. unfold create, Db.selectCompany. rewrite Hc. simpl.
  eexists _, _. repeat split.
Qed.

(** C9: when [companyHandle] references no company of the store,
    [Job.create] fails with the bad-request error (status 400) and the
    store, its jobs included, is left as it was. *)
Theorem create_unknown_company (data : newJob) (db : Db.t) :
  Db.companies db !! companyHandle data = None ->
  exists e,
    create data db = (inl e, db)
    /\ e = BadRequestError
             ("Company handle not found: " +:+ companyHandle data)
    /\ status e = 400%Z
    /\ Db.jobs (create data db).2 = Db.jobs db.
Proof.
  intros Hc. unfold create, Db.selectCompany. rewrite Hc. simpl.
  eexists. repeat split.
Qed.

Lemma create_unknown_company_witness :
  let c1 := {| Db.handle := "c1"; Db.name := "C1"; Db.numEmployees := JNum 1;
               Db.description := "Desc1"; Db.logoUrl := JStr "http://c1.img" |} in
  let db := {| Db.companies := {["c1" := c1]}; Db.jobs := [];
               Db.jobs_id_seq := 1 |} in
  let data := {| title := JStr "Lead Developer"; salary := JNum 100000;
                 equity := JNum 0; companyHandle := "c9" |} in
  Db.companies db !! companyHandle data = None
  /\ exists e, create data db = (inl e, db) /\ status e = 400%Z.
Proof.
  intros c1 db data. split; [reflexivity |].
  destruct (create_unknown_company data db eq_refl) as (e & H1 & _ & H3 & _).
  exists e. split; [exact H1 | exact H3].
Defined.

End JobClaims.

(** ** Authentication and authorization *)

Section AuthClaims.

Import Auth.

(** C3: [authenticateJWT] always ends by calling [next] without an
    error; without a bearer credential, or with one that fails
    verification, the identity context is the one it started with (empty
    for a fresh request); with a credential that verifies, the context
    holds exactly the decoded claims: username, admin flag and issue
    time. *)
Theorem authenticateJWT_never_fails
    (verify : string -> string -> option user) (SECRET_KEY : string)
    (req : request) (res : locals) :
  (authenticateJWT verify SECRET_KEY req res).1 = Next
  /\ (bearer req = None ->
      (authenticateJWT verify SECRET_KEY req res).2 = res)
  /\ (forall token, bearer req = Some token ->
        verify token SECRET_KEY = None ->
        (authenticateJWT verify SECRET_KEY req res).2 = res)
  /\ (forall token claims, bearer req = Some token ->
        verify token SECRET_KEY = Some claims ->
        (authenticateJWT verify SECRET_KEY req res).2 =
          {| locals_user :=
               Some {| username := username claims;
                       isAdmin := isAdmin claims;
                       iat := iat claims |} |})
  /\ (res = emptyLocals ->
      locals_user (authenticateJWT verify SECRET_KEY req res).2 = None
      <-> forall token, bearer req = Some token ->
            verify token SECRET_KEY = None).
Proof.
  unfold authenticateJWT.
  destruct (bearer req) as [token|] eqn:Hb.
  - destruct (verify token SECRET_KEY) as [claims|] eqn:Hv; simpl.
    + split; [done |]. split; [done |].
      split; [intros ? [= <-]; congruence |].
      split; [intros ? ? [= <-]; rewrite Hv; intros [= <-]; by destruct claims |].
      intros ->. split; [done |]. intros H. specialize (H token eq_refl).
      congruence.
    + split; [done |]. split; [done |]. split; [done |].
      split; [intros ? ? [= <-]; congruence |].
      intros ->. split; [| done]. intros _ ? [= <-]. done.
  - simpl. split; [done |]. split; [done |]. split; [done |].
    split; [done |]. intros ->. split; [done | done].
Qed.

(** C4: [ensureLoggedIn] passes iff the context holds a user;
    [ensureIsAdmin] passes iff it holds a user whose admin flag is set;
    [ensureIsAdminOrSelf] passes iff it holds a user whose admin flag is
    set or whose username is the route's username; a check that does not
    pass calls [next] with the unauthorized error (status 401). *)
Theorem ensure_checks (req : request) (res : locals) :
  (ensureLoggedIn req res = Next <-> is_Some (locals_user res))
  /\ (ensureIsAdmin req res = Next <->
        exists u, locals_user res = Some u /\ isAdmin u = true)
  /\ (ensureIsAdminOrSelf req res = Next <->
        exists u, locals_user res = Some u
          /\ (isAdmin u = true \/ username u = params_username req))
  /\ (forall check,
        check = ensureLoggedIn \/ check = ensureIsAdmin
          \/ check = ensureIsAdminOrSelf ->
        check req res = Next
        \/ exists msg, check req res = NextErr (UnauthorizedError msg)
             /\ status (UnauthorizedError msg) = 401%Z).
Proof.
  unfold ensureLoggedIn, ensureIsAdmin, ensureIsAdminOrSelf.
  destruct (locals_user res) as [u|] eqn:Hu.
  - split; [split; [by eexists | done] |].
    split.
    { destruct (isAdmin u) eqn:Ha; split; try done.
      - intros _. by exists u.
      - intros (u' & [= <-] & H). congruence. }
    split.
    { destruct (isAdmin u) eqn:Ha; simpl.
      - split; [intros _; exists u; auto | done].
      - destruct (String.eqb_spec (username u) (params_username req)) as [He|He].
        + split; [intros _; exists u; auto | done].
        + split; [done |]. intros (u' & [= <-] & [H | H]); congruence. }
    intros check [-> | [-> | ->]]; rewrite Hu.
    + by left.
    + destruct (isAdmin u); [by left | right; by eexists].
    + destruct (isAdmin u || _); [by left | right; by eexists].
  - split; [split; [done | by intros [? ?]] |].
    split; [split; [done | by intros (? & ? & ?)] |].
    split; [split; [done | by intros (? & ? & ?)] |].
    intros check [-> | [-> | ->]]; rewrite Hu; right; by eexists.
Qed.

End AuthClaims.

(** ** The cases of the repository's tests and comments *)

Section Examples.

Import Sql Auth.

(** The example of the comment in [sqlForPartialUpdate]. *)
Example sqlForPartialUpdate_comment :
  sqlForPartialUpdate [("firstName", JStr "Aliya"); ("age", JNum 32)]
    {["firstName" := "first_name"]} =
  inr {| setCols := dq +:+ "first_name" +:+ dq +:+ "=$1, "
                    +:+ dq +:+ "age" +:+ dq +:+ "=$2";
         values := [JStr "Aliya"; JNum 32] |}.
Proof. reflexivity. Qed.

Example findAll_no_filter :
  Company.findAll_whereClause None = Some ""
  /\ Job.findAll_whereClause None = Some "".
Proof. split; reflexivity. Qed.

Example company_all_filters :
  Company.findAll_whereClause
    (Some (Company.Build_filters (JStr "net") (JNum 2) (JNum 3))) =
  Some "WHERE name ILIKE '%net%' AND num_employees >= '2' AND num_employees <= '3'".
Proof. reflexivity. Qed.

Example job_all_filters :
  Job.findAll_whereClause
    (Some (Job.Build_filters (JStr "dev") (JNum 1000) (JBool true))) =
  Some "WHERE title ILIKE '%dev%' AND salary >= '1000' AND equity >= 0".
Proof. reflexivity. Qed.

Example ensureLoggedIn_tests :
  let test := {| username := "test"; isAdmin := false; iat := 0 |} in
  let req := {| bearer := None; params_username := "" |} in
  ensureLoggedIn req {| locals_user := Some test |} = Next
  /\ ensureLoggedIn req emptyLocals = NextErr (UnauthorizedError "Unauthorized").
Proof. split; reflexivity. Qed.

Example ensureIsAdmin_tests :
  let admin := {| username := "adminuser"; isAdmin := true; iat := 0 |} in
  let test := {| username := "test"; isAdmin := false; iat := 0 |} in
  let req := {| bearer := None; params_username := "" |} in
  ensureIsAdmin req {| locals_user := Some admin |} = Next
  /\ ensureIsAdmin req {| locals_user := Some test |} <> Next.
Proof. split; [reflexivity | discriminate]. Qed.

Example ensureIsAdminOrSelf_tests :
  let admin := {| username := "adminuser"; isAdmin := true; iat := 0 |} in
  let test := {| username := "test"; isAdmin := false; iat := 0 |} in
  let req name := {| bearer := None; params_username := name |} in
  ensureIsAdminOrSelf (req "test") {| locals_user := Some admin |} = Next
  /\ ensureIsAdminOrSelf (req "test") {| locals_user := Some test |} = Next
  /\ ensureIsAdminOrSelf (req "test2") {| locals_user := Some test |} <> Next.
Proof. split; [reflexivity | split; [reflexivity | discriminate]]. Qed.

End Examples.

(** ** Reading the fragment of [sqlForPartialUpdate] back *)

Section ScannerFacts.

Import Sql.

Lemma string_length_app (a b : string) :
  String.length (a +:+ b) = (String.length a + String.length b)%nat.
Proof. induction a as [|c a IH]; simpl; [done | by rewrite IH]. Qed.

Lemma pretty_N_char_digit (y : N) :
  (y < 10)%N ->
  Scanner.isDigit (pretty_N_char y) = true
  /\ Scanner.digitValue (pretty_N_char y) = y.
Proof.
  intros Hy.
  assert (y = 0 \/ y = 1 \/ y = 2 \/ y = 3 \/ y = 4 \/ y = 5 \/ y = 6
          \/ y = 7 \/ y = 8 \/ y = 9)%N as Hc by lia.
  repeat (destruct Hc as [-> | Hc]; [by vm_compute |]). by subst.
Qed.

Lemma pretty_N_go_app (x : N) (s : string) :
  pretty_N_go x s = pretty_N_go x "" +:+ s.
Proof.
  revert s. induction (N.lt_wf_0 x) as [x _ IH]. intros s.
  destruct (decide (x = 0)%N) as [-> | Hx]; [by rewrite !pretty_N_go_0 |].
  rewrite !(pretty_N_go_step x) by lia.
  rewrite (IH (x `div` 10)%N) by (apply N.div_lt; lia).
  rewrite (IH (x `div` 10)%N ltac:(apply N.div_lt; lia) (String _ "")).
  by rewrite append_assoc.
Qed.

Lemma readDigits_pretty_N_go (x : N) (s : string) :
  Scanner.readDigits 0 (pretty_N_go x s) = Scanner.readDigits x s.
Proof.
  revert s. induction (N.lt_wf_0 x) as [x _ IH]. intros s.
  destruct (decide (x = 0)%N) as [-> | Hx]; [by rewrite pretty_N_go_0 |].
  rewrite pretty_N_go_step by lia.
  rewrite IH by (apply N.div_lt; lia). simpl.
  destruct (pretty_N_char_digit (x `mod` 10)%N) as [-> ->].
  { apply N.mod_lt. lia. }
  f_equal. rewrite (N.div_mod x 10) at 3 by lia. lia.
Qed.

Lemma readDigits_stop (acc : N) (s : string) :
  notDigitHead s -> Scanner.readDigits acc s = (acc, s).
Proof. destruct s as [|c s]; simpl; [done | by intros ->]. Qed.

Lemma pretty_N_go_head (x : N) (c : ascii) (s : string) :
  Scanner.isDigit c = true ->
  exists d r, pretty_N_go x (String c s) = String d r /\ Scanner.isDigit d = true.
Proof.
  revert c s. induction (N.lt_wf_0 x) as [x _ IH]. intros c s Hc.
  destruct (decide (x = 0)%N) as [-> | Hx].
  - rewrite pretty_N_go_0. by exists c, s.
  - rewrite pretty_N_go_step by lia. apply IH; [apply N.div_lt; lia |].
    apply pretty_N_char_digit, N.mod_lt. lia.
Qed.

(** A placeholder written by the code is read back as its number. *)
Lemma placeholder_pretty (n : nat) (tail : string) :
  notDigitHead tail ->
  Scanner.placeholder ("$" +:+ pretty n +:+ tail) = Some (N.of_nat n, tail).
Proof.
  intros Htail. unfold pretty, pretty_nat, pretty, pretty_N.
  destruct (decide (N.of_nat n = 0)%N) as [-> | Hn].
  - simpl. by rewrite readDigits_stop.
  - rewrite <- pretty_N_go_app.
    assert (Hstep := pretty_N_go_step (N.of_nat n) tail ltac:(lia)).
    destruct (pretty_N_go_head (N.of_nat n `div` 10)
                (pretty_N_char (N.of_nat n `mod` 10)) tail) as (d & r & Hd & Hdig).
    { apply pretty_N_char_digit, N.mod_lt. lia. }
    rewrite <- Hstep in Hd. simpl.
    rewrite Hd, Hdig, <- Hd, readDigits_pretty_N_go.
    by rewrite readDigits_stop.
Qed.

Lemma assignment_scan (m : gmap string string) (i : nat) (k tail : string) :
  Spec.absent dquote (column m k) ->
  notDigitHead tail ->
  Scanner.assignment (assignment m i k +:+ tail) =
  Some ((column m k, N.of_nat (i + 1)), tail).
Proof.
  intros Hk Htail. unfold Scanner.assignment, assignment.
  rewrite !append_assoc.
  change (dq +:+ column m k +:+ dq +:+ "=$" +:+ pretty (i + 1)%nat +:+ tail)
    with (String dquote (column m k +:+ dq +:+ "=$" +:+ pretty (i + 1)%nat +:+ tail)).
  unfold Lexer.quotedIdent. rewrite Ascii.eqb_refl.
  rewrite identBody_absent by done.
  pose proof (placeholder_pretty (i + 1) tail Htail) as Hp.
  simpl in *. by rewrite Hp.
Qed.

Lemma join_cons_ne (sep x : string) (l : list string) :
  l <> [] -> join sep (x :: l) = x +:+ sep +:+ join sep l.
Proof. by destruct l. Qed.

Lemma assignment_nonempty (m : gmap string string) (i : nat) (k : string) :
  (1 <= String.length (assignment m i k))%nat.
Proof. unfold assignment, dq. simpl. lia. Qed.

Lemma join_length (f : nat -> string -> string) (ks : list string) :
  (forall i k, 1 <= String.length (f i k))%nat ->
  (length ks <= String.length (join ", " (imap f ks)))%nat.
Proof.
  revert f. induction ks as [|k ks IH]; intros f Hf; [simpl; lia |].
  rewrite imap_cons, join_cons, string_length_app.
  specialize (IH (f ∘ S) (fun i k => Hf (S i) k)). specialize (Hf 0%nat k).
  destruct ks as [|k' ks]; [simpl; lia |].
  rewrite imap_cons in *. rewrite string_length_app. simpl in *. lia.
Qed.

Lemma assignments_scan (m : gmap string string) (ks : list string)
    (j fuel : nat) :
  ks <> [] ->
  (length ks <= fuel)%nat ->
  Forall (fun k => Spec.absent dquote (column m k)) ks ->
  Scanner.assignments fuel
    (join ", " (imap (fun i => assignment m (j + i)) ks)) =
  Some (imap (fun i k => (column m k, N.of_nat (j + i + 1))) ks).
Proof.
  revert j fuel. induction ks as [|k ks IH]; intros j fuel Hne Hfuel Hks; [done |].
  destruct fuel as [|fuel]; [simpl in Hfuel; lia |].
  apply Forall_cons in Hks as [Hk Hks].
  destruct ks as [|k' ks].
  - cbn [imap join Scanner.assignments].
    rewrite <- (append_nil_r (assignment m (j + 0) k)).
    by rewrite assignment_scan.
  - rewrite (imap_cons _ k), (imap_cons _ k).
    rewrite join_cons_ne by (by rewrite imap_cons).
    cbn [Scanner.assignments].
    rewrite assignment_scan by done.
    cbn [mbind option_bind]. cbn [String.append].
    cbn [Ascii.eqb Bool.eqb andb].
    rewrite (imap_ext _ (fun i => assignment m (S j + i)) (k' :: ks)),
      (IH (S j) fuel);
      [| done | simpl in *; lia | done | intros; simpl; f_equal; lia].
    cbn [fmap option_fmap option_map]. f_equal. f_equal.
    apply imap_ext. intros. simpl. do 2 f_equal. lia.
Qed.

Lemma setCols_scan (data : object) (m : gmap string string) :
  data <> [] ->
  Forall (fun k => Spec.absent dquote (column m k)) (keys data) ->
  Scanner.assignments (String.length (join ", " (cols data m)))
    (join ", " (cols data m)) = Some (setList data m).
Proof.
  intros Hne Hks. unfold cols, setList.
  rewrite (assignments_scan m (keys data) 0); [done | | | done].
  - unfold keys. by destruct data.
  - apply join_length. intros. apply assignment_nonempty.
Qed.

End ScannerFacts.

Section ScannerClaims.

Import Sql.

(** For a non-empty field mapping whose resolved column names hold no
    double quote, the fragment of [sqlForPartialUpdate] is read back, as
    a list of quoted identifiers with positional parameters, into
    exactly the columns in key order, the column at position [i] with
    parameter number [i + 1]; and that parameter is bound, in the value
    list, to the value of the key. *)
Theorem setCols_read_back (data : object) (m : gmap string string) :
  data <> [] ->
  Forall (fun k => Spec.absent dquote (column m k)) (keys data) ->
  exists r,
    sqlForPartialUpdate data m = inr r
    /\ Scanner.assignments (String.length (setCols r)) (setCols r) =
         Some (setList data m)
    /\ forall i k v, data !! i = Some (k, v) ->
         setList data m !! i = Some (column m k, N.of_nat (i + 1))
         /\ Pg.param (values r) (N.of_nat (i + 1)) = Some v.
Proof.
  intros Hne Hks. eexists. split; [by apply sqlForPartialUpdate_nonempty |].
  cbn [setCols values]. split.
  - by apply setCols_scan.
  - intros i k v Hi. split.
    + unfold setList, keys. by rewrite list_lookup_imap, list_lookup_fmap, Hi.
    + unfold Pg.param. destruct (N.eqb_spec (N.of_nat (i + 1)) 0); [lia |].
      replace (N.to_nat (N.of_nat (i + 1)) - 1)%nat with i by lia.
      by eapply values_lookup.
Qed.

Lemma setCols_read_back_witness :
  let data := [("name", JStr "New"); ("numEmployees", JNum 10)] in
  let m : gmap string string :=
    {["numEmployees" := "num_employees"; "logoUrl" := "logo_url"]} in
  data <> []
  /\ Forall (fun k => Spec.absent dquote (column m k)) (keys data)
  /\ exists r,
    sqlForPartialUpdate data m = inr r
    /\ Scanner.assignments (String.length (setCols r)) (setCols r) =
         Some [("name", 1%N); ("num_employees", 2%N)].
Proof.
  intros data m.
  assert (Hks : Forall (fun k => Spec.absent dquote (column m k)) (keys data)).
  { repeat constructor; by vm_compute. }
  split; [done |]. split; [exact Hks |].
  destruct (setCols_read_back data m ltac:(done) Hks) as (r & H1 & H2 & _).
  exists r. split; [exact H1 | exact H2].
Defined.

End ScannerClaims.

(** ** Filters that keep nothing or everything *)

Lemma filter_none {A} (P : A -> Prop) `{forall x, Decision (P x)} (l : list A) :
  (forall x, x ∈ l -> ~ P x) -> filter P l = [].
Proof.
  induction l as [|x l IH]; intros Hl; [done |].
  rewrite filter_cons_False by (apply Hl; by left).
  apply IH. intros y Hy. apply Hl. by right.
Qed.

Lemma filter_all {A} (P : A -> Prop) `{forall x, Decision (P x)} (l : list A) :
  (forall x, x ∈ l -> P x) -> filter P l = l.
Proof.
  induction l as [|x l IH]; intros Hl; [done |].
  rewrite filter_cons_True by (apply Hl; by left).
  f_equal. apply IH. intros y Hy. apply Hl. by right.
Qed.

(** ** [Job.update] *)

Section UpdateFacts.

Import Sql.

Lemma settable_not_inherited (k : string) :
  Pg.settable k = true -> inherited k = None.
Proof.
  unfold Pg.settable. intros H.
  destruct (String.eqb_spec k "title") as [Heq |]; [by subst k |].
  destruct (String.eqb_spec k "salary") as [Heq |]; [by subst k |].
  destruct (String.eqb_spec k "equity") as [Heq |]; [by subst k | done].
Qed.

Lemma column_empty (k : string) : Pg.settable k = true -> column ∅ k = k.
Proof.
  intros Hk. unfold column.
  by rewrite lookup_empty, settable_not_inherited.
Qed.

Lemma settable_absent (k : string) :
  Pg.settable k = true -> Spec.absent dquote k.
Proof.
  unfold Pg.settable. intros H.
  destruct (String.eqb_spec k "title") as [Heq |]; [subst k; by vm_compute |].
  destruct (String.eqb_spec k "salary") as [Heq |]; [subst k; by vm_compute |].
  destruct (String.eqb_spec k "equity") as [Heq |]; [subst k; by vm_compute | done].
Qed.

Lemma settable_cases (k : string) :
  Pg.settable k = true -> k = "title" \/ k = "salary" \/ k = "equity".
Proof.
  unfold Pg.settable. intros H.
  destruct (String.eqb_spec k "title"); [by left |].
  destruct (String.eqb_spec k "salary"); [by right; left |].
  destruct (String.eqb_spec k "equity"); [by right; right | done].
Qed.

Lemma setList_empty (data : object) :
  Forall (fun k => Pg.settable k = true) (keys data) ->
  setList data ∅ = imap (fun i k => (k, N.of_nat (i + 1))) (keys data).
Proof.
  intros Hks. unfold setList. apply list_eq. intros i.
  rewrite !list_lookup_imap. destruct (keys data !! i) as [k|] eqn:Hk; [| done].
  cbn. rewrite column_empty; [done |].
  by eapply (proj1 (Forall_lookup _ _)) in Hks.
Qed.

Lemma imap_names (ks : list string) (g : nat -> N) :
  (imap (fun i k => (k, g i)) ks).*1 = ks.
Proof.
  apply list_eq. intros i.
  rewrite list_lookup_fmap, list_lookup_imap. by destruct (ks !! i).
Qed.

Lemma param_middle (pre post : list jsval) (v : jsval) :
  Pg.param (pre ++ v :: post) (N.of_nat (length pre + 1)) = Some v.
Proof.
  unfold Pg.param. destruct (N.eqb_spec (N.of_nat (length pre + 1)) 0); [lia |].
  replace (N.to_nat (N.of_nat (length pre + 1)) - 1)%nat with (length pre) by lia.
  apply list_lookup_middle. done.
Qed.

(** Binding the SET list of a mapping to its own values gives the
    mapping back. *)
Lemma bindSet_values (data : object) (pre post : list jsval) :
  Forall (fun k => Pg.settable k = true) (keys data) ->
  Pg.bindSet
    (imap (fun i k => (k, N.of_nat (length pre + i + 1))) (keys data))
    (pre ++ JS.values data ++ post) = Some data.
Proof.
  revert pre. induction data as [|[k v] data IH]; intros pre Hks; [done |].
  unfold keys, JS.values in *. rewrite !fmap_cons in *.
  apply Forall_cons in Hks as [Hk Hks]. rewrite imap_cons.
  cbn [Pg.bindSet fst snd] in *. rewrite Nat.add_0_r.
  change ((v :: data.*2) ++ post)%list with (v :: (data.*2 ++ post))%list.
  rewrite param_middle. cbn [mbind option_bind].
  unfold Pg.isColumn. rewrite Hk. cbn [orb].
  rewrite (imap_ext _ (fun i k => (k, N.of_nat (length (pre ++ [v])%list + i + 1)))).
  - rewrite (cons_middle v pre (data.*2 ++ post)%list), List.app_assoc.
    by rewrite (IH (pre ++ [v])%list Hks).
  - intros. simpl. rewrite length_app. simpl. do 2 f_equal. lia.
Qed.

Lemma valueOf_absent (k : string) (data : object) :
  k ∉ keys data -> valueOf k data = None.
Proof.
  induction data as [|[k' v] data IH]; [done |]. unfold keys. simpl.
  intros Hk. apply not_elem_of_cons in Hk as [Hne Hk].
  destruct (String.eqb_spec k' k); [congruence | by apply IH].
Qed.


(** The assignments of a mapping with distinct keys over the data
    columns are accepted and leave the patched row. *)
Lemma applySet_patched (data : object) (j : Db.job) :
  NoDup (keys data) ->
  Forall (fun k => Pg.settable k = true) (keys data) ->
  Pg.applySet data j = Some (patched data j).
Proof.
  revert j. induction data as [|[k v] data IH]; intros j Hnd Hks.
  - by destruct j.
  - unfold keys in *. rewrite fmap_cons in *.
    apply NoDup_cons in Hnd as [Hk Hnd]. apply Forall_cons in Hks as [Hs Hks].
    pose proof (valueOf_absent k data Hk) as Ha.
    cbn [Pg.applySet]. simpl in Hs.
    destruct (settable_cases k Hs) as [Heq | [Heq | Heq]]; subst k;
      cbn [Pg.setColumn String.eqb Ascii.eqb Bool.eqb andb mbind option_bind];
      rewrite (IH _ Hnd Hks); unfold patched; simpl; rewrite Ha;
      by destruct j.
Qed.

Lemma mapM_total {A B} (f : A -> option B) (g : A -> B) (l : list A) :
  (forall x, f x = Some (g x)) -> mapM f l = Some (g <$> l).
Proof.
  intros Hf. induction l as [|x l IH]; [done |].
  cbn. rewrite Hf, IH. done.
Qed.

(** The statement [Job.update] sends for a non-empty mapping of
    distinct keys over the data columns is accepted: the rows with the
    id are patched and returned. *)
Lemma update_run (i : Z) (data : object) (db : Db.t) :
  data <> [] ->
  NoDup (keys data) ->
  Forall (fun k => Pg.settable k = true) (keys data) ->
  let updated :=
    patched data <$> filter (fun j => Db.id j = i) (Db.jobs db) in
  let db' := {| Db.companies := Db.companies db;
                Db.jobs := (filter (fun j => Db.id j <> i) (Db.jobs db)
                            ++ updated)%list;
                Db.jobs_id_seq := Db.jobs_id_seq db |} in
  JobStore.update i data db =
  (match head updated with
   | Some job => Returned job
   | None => Threw (NotFoundError ("No job: " +:+ pretty i))
   end, db').
Proof.
  intros Hne Hnd Hks updated db'. unfold JobStore.update.
  rewrite sqlForPartialUpdate_nonempty by done. cbn [setCols values].
  unfold Pg.updateJobs. rewrite setCols_scan; [| done |].
  2: { eapply Forall_impl; [exact Hks |]. intros k Hk. rewrite column_empty by done.
       by apply settable_absent. }
  cbn [mbind option_bind].
  rewrite setList_empty by done.
  rewrite imap_names, bool_decide_eq_true_2 by done.
  rewrite <- (append_nil_r (pretty _)).
  rewrite (placeholder_pretty _ "") by done. cbn [mbind option_bind].
  cbn [String.eqb].
  rewrite (param_middle (JS.values data) [] (JNum i)).
  cbn [mbind option_bind].
  pose proof (bindSet_values data [] [JNum i] Hks) as Hb.
  simpl in Hb. rewrite Hb. cbn [mbind option_bind].
  rewrite (mapM_total _ (patched data))
    by (intros; by apply applySet_patched).
  cbn [mbind option_bind]. fold updated.
  assert (Hid : "id" ∉ data.*1).
  { intros Hin. eapply (proj1 (Forall_forall _ _)) in Hks; [| exact Hin]. done. }
  assert (Hch : "company_handle" ∉ data.*1).
  { intros Hin. eapply (proj1 (Forall_forall _ _)) in Hks; [| exact Hin]. done. }
  rewrite !bool_decide_eq_true_2 by (by left). cbn [andb].
  by destruct (head updated).
Qed.

Lemma filter_id_none (g : Db.job -> Db.job) (i : Z) (l : list Db.job) :
  (forall x, Db.id (g x) = Db.id x) ->
  (forall x, x ∈ l -> Db.id x <> i) ->
  filter (fun x => Db.id x = i) (g <$> l) = [].
Proof.
  intros Hg Hl. induction l as [|x l IH]; [done |].
  rewrite fmap_cons, filter_cons_False.
  - apply IH. intros y Hy. apply Hl. by right.
  - rewrite Hg. apply Hl. by left.
Qed.

Lemma filter_id_one (g : Db.job -> Db.job) (j : Db.job) (l : list Db.job) :
  (forall x, Db.id (g x) = Db.id x) ->
  NoDup (Db.id <$> l) ->
  j ∈ l ->
  filter (fun x => Db.id x = Db.id j) (g <$> l) = [g j].
Proof.
  intros Hg Hnd Hj. induction l as [|x l IH]; [by apply elem_of_nil in Hj |].
  rewrite fmap_cons in Hnd. apply NoDup_cons in Hnd as [Hx Hnd].
  rewrite fmap_cons. apply elem_of_cons in Hj as [-> | Hj].
  - rewrite filter_cons_True by apply Hg. f_equal.
    apply filter_id_none; [done |]. intros y Hy Heq. apply Hx.
    rewrite <- Heq. by apply list_elem_of_fmap_2.
  - rewrite filter_cons_False; [by apply IH |].
    rewrite Hg. intros Heq. apply Hx. rewrite Heq.
    by apply list_elem_of_fmap_2.
Qed.


End UpdateFacts.


(** ** [Company.create] and [Company.get] *)

Section CompanyStoreClaims.

Import CompanyStore.

(** The element of the [jobs] array that [Company.get] makes of a job. *)
Lemma get_rows (db : Db.t) (h : string) (c : Db.company) :
  Db.companies db !! h = Some c ->
  get h db =
  inr {| handle := h; name := Db.name c; description := Db.description c;
         numEmployees := Db.numEmployees c; logoUrl := Db.logoUrl c;
         jobs := (fun j => {| id := JNum (Db.id j); title := Db.title j;
                              salary := Db.salary j; equity := Db.equity j |})
                   <$> Pg.jobsOf db h |}.
Proof.
  intros Hc. unfold get, Pg.selectCompanyJobs. rewrite Hc.
  destruct (Pg.jobsOf db h) as [|j js]; [reflexivity |].
  cbn [fmap list_fmap head length]. cbn [Pg.joined Pg.j_id notNull].
  rewrite orb_true_r. cbn [Pg.c_name Pg.c_description Pg.c_numEmployees
                           Pg.c_logoUrl].
  do 2 f_equal. rewrite <- list_fmap_compose. reflexivity.
Qed.

(** [Company.get] of a stored company returns its columns under the
    handle asked for, with one entry of [jobs] for each job that
    references it, in table order, and the empty array when there is
    none (the row the outer join pads with nulls is not taken for a
    job); for a handle that is not stored it throws the not-found
    error. *)
Theorem company_get_lists_its_jobs (db : Db.t) (h : string) :
  match Db.companies db !! h with
  | Some c =>
      exists r,
        get h db = inr r
        /\ handle r = h /\ name r = Db.name c
        /\ description r = Db.description c
        /\ numEmployees r = Db.numEmployees c /\ logoUrl r = Db.logoUrl c
        /\ jobs r =
             ((fun j => {| id := JNum (Db.id j); title := Db.title j;
                           salary := Db.salary j; equity := Db.equity j |})
                <$> filter (fun j => Db.company_handle j = h) (Db.jobs db))
        /\ length (jobs r) =
             length (filter (fun j => Db.company_handle j = h) (Db.jobs db))
  | None =>
      get h db = inl (NotFoundError ("No company: " +:+ h))
      /\ status (NotFoundError ("No company: " +:+ h)) = 404%Z
  end.
Proof.
  destruct (Db.companies db !! h) as [c|] eqn:Hc.
  - eexists. split; [by apply get_rows |]. cbn [handle name description
      numEmployees logoUrl jobs]. repeat split. by rewrite length_fmap.
  - unfold get, Pg.selectCompanyJobs. by rewrite Hc.
Qed.

(** [Company.create] with a handle that is already stored throws the
    bad-request error and leaves the store as it was: the stored
    company is not overwritten. *)
Theorem company_create_duplicate (data : Db.company) (db : Db.t) :
  is_Some (Db.companies db !! Db.handle data) ->
  create data db =
    (Threw (BadRequestError ("Duplicate company: " +:+ Db.handle data)), db)
  /\ status (BadRequestError ("Duplicate company: " +:+ Db.handle data)) = 400%Z.
Proof.
  intros [c Hc]. unfold create, Pg.selectHandle. by rewrite Hc.
Qed.

Lemma company_create_duplicate_witness :
  let c1 := {| Db.handle := "c1"; Db.name := "C1"; Db.numEmployees := JNum 1;
               Db.description := "Desc1"; Db.logoUrl := JStr "http://c1.img" |} in
  let c1' := {| Db.handle := "c1"; Db.name := "Other"; Db.numEmployees := JNum 9;
                Db.description := ""; Db.logoUrl := JNull |} in
  let db := {| Db.companies := {["c1" := c1]}; Db.jobs := [];
               Db.jobs_id_seq := 1 |} in
  is_Some (Db.companies db !! Db.handle c1')
  /\ create c1' db = (Threw (BadRequestError "Duplicate company: c1"), db).
Proof.
  intros c1 c1' db.
  assert (H : is_Some (Db.companies db !! Db.handle c1')) by (by exists c1).
  split; [exact H |]. exact (proj1 (company_create_duplicate c1' db H)).
Defined.



End CompanyStoreClaims.

(** ** [Job.create], [Job.get] and [Job.delete] on the store *)

Section JobStoreClaims.

Lemma selectJob_none (db : Db.t) (i : Z) :
  (forall x, x ∈ Db.jobs db -> Db.id x <> i) -> Pg.selectJob db i = [].
Proof. intros Hi. unfold Pg.selectJob. by rewrite filter_none. Qed.

(** Replacing the rows that have an id by patched versions, put after
    the others, keeps the store consistent. *)
Lemma consistent_patched (data : object) (i : Z) (db : Db.t) :
  consistent db ->
  consistent
    {| Db.companies := Db.companies db;
       Db.jobs := (filter (fun j => Db.id j <> i) (Db.jobs db)
                   ++ (patched data <$> filter (fun j => Db.id j = i) (Db.jobs db)))%list;
       Db.jobs_id_seq := Db.jobs_id_seq db |}.
Proof.
  intros [H1 H2 H3 H4]. split; cbn [Db.companies Db.jobs Db.jobs_id_seq].
  - done.
  - rewrite fmap_app, <- list_fmap_compose.
    change (Db.id ∘ patched data) with Db.id.
    rewrite <- fmap_app.
    assert (Hp : (filter (fun j => Db.id j <> i) (Db.jobs db)
                  ++ filter (fun j => Db.id j = i) (Db.jobs db))%list
                 ≡ₚ Db.jobs db).
    { rewrite (comm (++)%list). apply filter_app_complement. }
    by rewrite Hp.
  - intros x [Hx | Hx]%elem_of_app.
    + apply list_elem_of_filter in Hx as [_ Hx]. by apply H3.
    + apply list_elem_of_fmap in Hx as (y & -> & Hy).
      apply list_elem_of_filter in Hy as [_ Hy]. by apply (H3 y).
  - intros x [Hx | Hx]%elem_of_app.
    + apply list_elem_of_filter in Hx as [_ Hx]. by apply H4.
    + apply list_elem_of_fmap in Hx as (y & -> & Hy).
      apply list_elem_of_filter in Hy as [_ Hy]. by apply (H4 y).
Qed.

(** The methods that write keep the store consistent, however they
    end: handles stay the keys of the companies, job ids stay distinct
    and below the sequence, and every job keeps referencing a stored
    company.  This holds for [Company.create], [Job.create] and
    [Job.delete] with any argument, and for [Job.update] with a mapping
    of distinct keys over [title], [salary] and [equity]. *)
Theorem writes_keep_store_consistent (db : Db.t) :
  consistent db ->
  (forall data, consistent (CompanyStore.create data db).2)
  /\ (forall data, consistent (JobModel.create data db).2)
  /\ (forall i, consistent (JobStore.delete i db).2)
  /\ (forall i data,
        NoDup (keys data) ->
        Forall (fun k => Pg.settable k = true) (keys data) ->
        consistent (JobStore.update i data db).2).
Proof.
  intros Hdb. pose proof Hdb as [H1 H2 H3 H4].
  split; [intros data | split; [intros data | split; [intros i | intros i data]]].
  - unfold CompanyStore.create, Pg.selectHandle, Pg.insertCompany.
    destruct (Db.companies db !! Db.handle data) eqn:Hc; [done |].
    cbn [head snd]. split; cbn [Db.companies Db.jobs Db.jobs_id_seq].
    + intros h c. rewrite lookup_insert. case_decide; [naive_solver | apply H1].
    + done.
    + done.
    + intros j Hj. rewrite lookup_insert. case_decide; [by eexists | by apply H4].
  - unfold JobModel.create, Db.selectCompany.
    destruct (Db.companies db !! JobModel.companyHandle data) eqn:Hc; [| done].
    cbn [head Db.insertJob snd].
    split; cbn [Db.companies Db.jobs Db.jobs_id_seq].
    + done.
    + rewrite fmap_app. apply NoDup_app. split; [done |]. split.
      * intros i (x & -> & Hx)%list_elem_of_fmap Hi.
        apply list_elem_of_singleton in Hi. specialize (H3 x Hx). simpl in Hi. lia.
      * apply NoDup_singleton.
    + intros j [Hj | ->%list_elem_of_singleton]%elem_of_app.
      * specialize (H3 j Hj). lia.
      * simpl. lia.
    + intros j [Hj | ->%list_elem_of_singleton]%elem_of_app;
        [by apply H4 | by eexists].
  - unfold JobStore.delete, Pg.deleteJob.
    assert (Hdb' : consistent
              {| Db.companies := Db.companies db;
                 Db.jobs := filter (fun j => Db.id j <> i) (Db.jobs db);
                 Db.jobs_id_seq := Db.jobs_id_seq db |}); [| by destruct (head _)].
    split; cbn [Db.companies Db.jobs Db.jobs_id_seq].
    + done.
    + apply (NoDup_fmap_2_strong Db.id).
      * intros x y Hx%list_elem_of_filter Hy%list_elem_of_filter Heq.
        destruct Hx as [_ Hx], Hy as [_ Hy].
        apply list_elem_of_lookup in Hx as [a Ha], Hy as [b Hb].
        assert (a = b) as ->; [| congruence].
        eapply NoDup_lookup; [exact H2 | |];
          rewrite list_lookup_fmap; [by rewrite Ha | by rewrite Hb, Heq].
      * apply NoDup_filter. by eapply NoDup_fmap_1.
    + intros j [_ Hj]%list_elem_of_filter. by apply H3.
    + intros j [_ Hj]%list_elem_of_filter. by apply H4.
  - intros Hnd Hks. destruct data as [|kv data]; [done |].
    rewrite update_run by done. cbn [snd]. by apply consistent_patched.
Qed.

Lemma writes_keep_store_consistent_witness :
  let c1 := {| Db.handle := "c1"; Db.name := "C1"; Db.numEmployees := JNum 1;
               Db.description := "Desc1"; Db.logoUrl := JStr "http://c1.img" |} in
  let db := {| Db.companies := {["c1" := c1]}; Db.jobs := [];
               Db.jobs_id_seq := 1 |} in
  let data := {| JobModel.title := JStr "Lead Developer";
                 JobModel.salary := JNum 100000; JobModel.equity := JNum 0;
                 JobModel.companyHandle := "c1" |} in
  consistent db
  /\ Db.jobs (JobModel.create data db).2 =
       [{| Db.id := 1; Db.title := JStr "Lead Developer";
           Db.salary := JNum 100000; Db.equity := JStr "0";
           Db.company_handle := "c1" |}]
  /\ consistent (JobModel.create data db).2.
Proof.
  intros c1 db data.
  assert (Hdb : consistent db).
  { split; cbn.
    - intros h c. rewrite lookup_singleton. case_decide; naive_solver.
    - constructor.
    - intros j Hj. by apply elem_of_nil in Hj.
    - intros j Hj. by apply elem_of_nil in Hj. }
  split; [exact Hdb |]. split; [reflexivity |].
  exact (proj1 (proj2 (writes_keep_store_consistent db Hdb)) data).
Defined.



(** [Job.delete] on a store with distinct job ids: when a job has the
    id, the method succeeds, exactly that job leaves the store, and
    [Job.get] of the id then throws the not-found error while [Job.get]
    of every other id returns what it returned before; when no job has
    the id, the method throws the not-found error and the store is as
    it was. *)
Theorem job_delete_removes_one (i : Z) (db : Db.t) :
  NoDup (Db.id <$> Db.jobs db) ->
  (forall j, j ∈ Db.jobs db -> Db.id j = i ->
     exists db',
       JobStore.delete i db = (inr tt, db')
       /\ (forall x, x ∈ Db.jobs db' <-> x ∈ Db.jobs db /\ x <> j)
       /\ Db.companies db' = Db.companies db
       /\ JobStore.get i db' = inl (NotFoundError ("No job: " +:+ pretty i))
       /\ forall i', i' <> i -> JobStore.get i' db' = JobStore.get i' db)
  /\ ((forall j, j ∈ Db.jobs db -> Db.id j <> i) ->
      JobStore.delete i db =
        (inl (NotFoundError ("No job: " +:+ pretty i)), db)).
Proof.
  intros Hnd. split.
  - intros j Hj Hi. unfold JobStore.delete, Pg.deleteJob.
    assert (Hone : filter (fun x => Db.id x = i) (Db.jobs db) = [j]).
    { subst i. rewrite <- (list_fmap_id (Db.jobs db)) at 1.
      by rewrite (filter_id_one id j (Db.jobs db)). }
    rewrite Hone. cbn [fmap list_fmap head]. eexists. split; [reflexivity |].
    cbn [Db.jobs Db.companies]. split.
    { intros x. rewrite list_elem_of_filter. split.
      - intros [Hx Hin]. split; [done | congruence].
      - intros [Hin Hx]. split; [| done]. intros Heq. apply Hx.
        apply list_elem_of_lookup in Hin as [a Ha], Hj as [b Hb].
        assert (a = b) as ->; [| congruence].
        eapply NoDup_lookup; [exact Hnd | |];
          rewrite list_lookup_fmap; [by rewrite Ha | rewrite Hb; simpl; congruence]. }
    split; [done |]. split.
    + unfold JobStore.get. rewrite selectJob_none; [done |].
      cbn [Db.jobs]. by intros x [Hx _]%list_elem_of_filter.
    + intros i' Hi'. unfold JobStore.get, Pg.selectJob. cbn [Db.jobs Db.companies].
      rewrite list_filter_filter.
      rewrite (list_filter_iff _ (fun x => Db.id x = i')); [done |].
      intros x. split; [by intros [? _] | intros Hx; split; [done | congruence]].
  - intros Hi. unfold JobStore.delete, Pg.deleteJob.
    rewrite (filter_none (fun j => Db.id j = i)) by (intros x Hx; by apply Hi).
    rewrite filter_all by done. cbn [fmap list_fmap head]. by destruct db.
Qed.

Lemma job_delete_removes_one_witness :
  let j := {| Db.id := 7; Db.title := JStr "Developer 2"; Db.salary := JNum 2222;
              Db.equity := JNum 0; Db.company_handle := "c2" |} in
  let db := {| Db.companies := ∅; Db.jobs := [j]; Db.jobs_id_seq := 8 |} in
  NoDup (Db.id <$> Db.jobs db)
  /\ exists db',
      JobStore.delete 7 db = (inr tt, db')
      /\ JobStore.get 7 db' = inl (NotFoundError "No job: 7").
Proof.
  intros j db.
  assert (Hnd : NoDup (Db.id <$> Db.jobs db))
    by (apply (bool_decide_unpack _); by vm_compute).
  split; [exact Hnd |].
  destruct (proj1 (job_delete_removes_one 7 db Hnd) j ltac:(by left) eq_refl)
    as (db' & H1 & _ & _ & H4 & _).
  exists db'. split; [exact H1 | exact H4].
Defined.

End JobStoreClaims.

(** ** More on the filter clauses *)

Section MoreFilterClaims.

Import PgFormat.

(** In a company listing a maximum bound of 0 contributes no predicate,
    the conditions are those of the same filters without the key, so no
    upper bound is applied; a positive bound contributes the predicate
    [num_employees <= value] after all the others. *)
Theorem max_bound_zero_is_absent (n : Z) (nl mn : jsval) :
  (0 < n)%Z ->
  let before :=
    (Spec.predicate (truthy nl)
       ("name ILIKE " +:+ quoteLiteral (JStr ("%" +:+ toString nl +:+ "%")))
     ++ Spec.predicate (truthy mn)
       ("num_employees >= " +:+ quoteLiteral mn))%list in
  Company.conditions (Some (Company.Build_filters nl mn (JNum 0))) =
    Some before
  /\ Company.conditions (Some (Company.Build_filters nl mn (JNum 0))) =
     Company.conditions (Some (Company.Build_filters nl mn JUndefined))
  /\ Company.conditions (Some (Company.Build_filters nl mn (JNum n))) =
     Some (before ++ ["num_employees <= " +:+ quoteLiteral (JNum n)])%list.
Proof.
  intros Hn before. rewrite !company_conditions_eq.
  unfold Spec.companyPredicates.
  cbn [Company.nameLike Company.minEmployees Company.maxEmployees].
  rewrite (truthy_positive n Hn). cbn [truthy Z.eqb negb Spec.predicate].
  rewrite !app_nil_r. repeat split. by rewrite (assoc_L (++)%list).
Qed.

Lemma max_bound_zero_is_absent_witness :
  (0 < 3)%Z
  /\ Company.conditions
       (Some (Company.Build_filters JUndefined (JNum 2) (JNum 0))) =
     Some ["num_employees >= '2'"]
  /\ Company.conditions
       (Some (Company.Build_filters JUndefined (JNum 2) (JNum 3))) =
     Some ["num_employees >= '2'"; "num_employees <= '3'"].
Proof.
  split; [lia |].
  destruct (max_bound_zero_is_absent 3 JUndefined (JNum 2) ltac:(lia))
    as (H1 & _ & H3).
  split; [exact H1 | exact H3].
Defined.

(** A truthy value is written by the literal quoting as one string
    constant. *)
Lemma quoteLiteral_truthy (v : jsval) :
  truthy v = true ->
  exists text, Lexer.stringConstant (quoteLiteral v) = Some (text, "").
Proof.
  destruct v as [| | [|] | n | s]; intros Hv; try done.
  - by exists "t".
  - exists (pretty n). apply stringConstant_number.
  - exists s. rewrite <- (append_nil_r (quoteLiteral (JStr s))).
    by apply (stringConstant_quoteString s "").
Qed.

(** Whatever values of [JS.jsval] the filter keys hold ([undefined],
    null, a boolean, an integer or a string, whichever the key), every
    condition the two [findAll] build is one of the fixed operator
    prefixes followed by a single string constant that ends the
    condition, or, for [hasEquity], one of the two fixed predicates: no
    part of such a filter value is written outside a string constant.
    Arrays and objects as filter values are outside this statement. *)
Theorem conditions_are_literals :
  (forall (f : Company.filters) conds c,
      Company.conditions (Some f) = Some conds ->
      c ∈ conds ->
      exists prefix lit text,
        prefix ∈ ["name ILIKE "; "num_employees >= "; "num_employees <= "]
        /\ c = prefix +:+ lit
        /\ Lexer.stringConstant lit = Some (text, ""))
  /\ (forall (f : Job.filters) conds c,
      Job.conditions (Some f) = Some conds ->
      c ∈ conds ->
      c = "equity >= 0" \/ c = "(equity = 0 OR equity = NULL)"
      \/ exists prefix lit text,
           prefix ∈ ["title ILIKE "; "salary >= "]
           /\ c = prefix +:+ lit
           /\ Lexer.stringConstant lit = Some (text, "")).
Proof.
  split.
  - intros f conds c. rewrite company_conditions_eq. intros [= <-].
    unfold Spec.companyPredicates, Spec.predicate.
    rewrite !elem_of_app. intros [Hc | [Hc | Hc]].
    + destruct (truthy (Company.nameLike f)) eqn:Hv;
        [| by apply elem_of_nil in Hc].
      apply list_elem_of_singleton in Hc as ->.
      destruct (quoteLiteral_truthy
                  (JStr ("%" +:+ toString (Company.nameLike f) +:+ "%")))
        as [text Ht]; [done |].
      eexists _, _, text. split; [| split; [reflexivity | exact Ht]].
      set_solver.
    + destruct (truthy (Company.minEmployees f)) eqn:Hv;
        [| by apply elem_of_nil in Hc].
      apply list_elem_of_singleton in Hc as ->.
      destruct (quoteLiteral_truthy _ Hv) as [text Ht].
      eexists _, _, text. split; [| split; [reflexivity | exact Ht]].
      set_solver.
    + destruct (truthy (Company.maxEmployees f)) eqn:Hv;
        [| by apply elem_of_nil in Hc].
      apply list_elem_of_singleton in Hc as ->.
      destruct (quoteLiteral_truthy _ Hv) as [text Ht].
      eexists _, _, text. split; [| split; [reflexivity | exact Ht]].
      set_solver.
  - intros f conds c. rewrite job_conditions_eq. intros [= <-].
    unfold Spec.jobPredicates, Spec.predicate.
    rewrite !elem_of_app. intros [Hc | [Hc | Hc]].
    + destruct (truthy (Job.title f)) eqn:Hv; [| by apply elem_of_nil in Hc].
      apply list_elem_of_singleton in Hc as ->. right. right.
      destruct (quoteLiteral_truthy
                  (JStr ("%" +:+ toString (Job.title f) +:+ "%")))
        as [text Ht]; [done |].
      eexists _, _, text. split; [| split; [reflexivity | exact Ht]].
      set_solver.
    + destruct (truthy (Job.minSalary f)) eqn:Hv; [| by apply elem_of_nil in Hc].
      apply list_elem_of_singleton in Hc as ->. right. right.
      destruct (quoteLiteral_truthy _ Hv) as [text Ht].
      eexists _, _, text. split; [| split; [reflexivity | exact Ht]].
      set_solver.
    + destruct (isDefined (Job.hasEquity f)); [| by apply elem_of_nil in Hc].
      apply list_elem_of_singleton in Hc as ->.
      destruct (truthy (Job.hasEquity f)); auto.
Qed.

End MoreFilterClaims.

(** ** [Job.update] on the store *)

Section UpdateClaims.



(** [Job.update] fails without changing the store: with an empty
    mapping it throws the bad-request error of [sqlForPartialUpdate]
    before any statement is sent, whatever the id and the store; with a
    non-empty mapping of distinct keys among [title], [salary] and
    [equity], holding the values the schema and the routes let through,
    and an id no job has, it throws the not-found error. *)
Theorem update_failures_keep_store (i : Z) (data : object) (db : Db.t) :
  JobStore.update i [] db = (Threw (BadRequestError "No data"), db)
  /\ (data <> [] ->
      NoDup (keys data) ->
      Forall (fun k => Pg.settable k = true) (keys data) ->
      (forall k v, (k, v) ∈ data -> jobValue k v) ->
      (forall x, x ∈ Db.jobs db -> Db.id x <> i) ->
      JobStore.update i data db =
        (Threw (NotFoundError ("No job: " +:+ pretty i)), db)).
Proof.
  split; [done |]. intros Hne Hnd Hks _ Hi.
  rewrite update_run by done.
  rewrite (filter_none (fun j => Db.id j = i)) by done.
  rewrite filter_all by done. cbn [fmap list_fmap head]. rewrite app_nil_r.
  by destruct db.
Qed.

(** The two failures of the model's tests: an empty mapping for a
    stored job, and the id -1. *)
Lemma update_failures_keep_store_witness :
  let j := {| Db.id := 7; Db.title := JStr "Developer 1"; Db.salary := JNum 1111;
              Db.equity := JStr "0"; Db.company_handle := "c1" |} in
  let db := {| Db.companies := ∅; Db.jobs := [j]; Db.jobs_id_seq := 8 |} in
  let data := [("title", JStr "New"); ("salary", JNum 100)] in
  JobStore.update 7 [] db = (Threw (BadRequestError "No data"), db)
  /\ JobStore.update (-1) data db = (Threw (NotFoundError "No job: -1"), db).
Proof.
  intros j db data.
  split; [exact (proj1 (update_failures_keep_store 7 [] db)) |].
  apply (proj2 (update_failures_keep_store (-1) data db)).
  - done.
  - apply (bool_decide_unpack _). by vm_compute.
  - repeat constructor.
  - intros k v Hkv. unfold data in Hkv.
    repeat (apply elem_of_cons in Hkv as [[= -> ->] | Hkv]);
      [| | by apply elem_of_nil in Hkv];
      (split; [| split]); intros; try done.
    + by eexists.
    + eexists. split; [done | lia].
  - intros x ->%list_elem_of_singleton. done.
Defined.



End UpdateClaims.
